(** * Producer / consumer example clients of the partitioned-log messenger

    A shallow embedding of

    - [messenger/examples/python/getting-started/producer.py]
    - [third_party/iggy/examples/python/basic/consumer.py]

    Both programs drive a client object of an SDK.  The client is kept
    abstract (a type class over the state [W] of "client plus everything
    behind it"); every call either returns a value or raises, and may change
    [W].  The programs are written by explicit state passing and return the
    chronological list of everything they did that is visible from outside:
    log lines, client calls with their outcome, and pauses. *)

From Stdlib Require Import ZArith QArith Lia.
From stdpp Require Import base option list strings pretty gmap.

Open Scope Z_scope.

(** ** Values shared by the two programs *)

(** A raised Python exception: [type(error).__name__] and [str(error)]. *)
Record exn : Type := Exn { exn_type : string; exn_msg : string }.

(** The outcome of a call that may raise. *)
Inductive result (A : Type) : Type :=
| Return (a : A)
| Raise (e : exn).
Arguments Return {A} a.
Arguments Raise {A} e.

Definition raised {A} (r : result A) : bool :=
  match r with Return _ => false | Raise _ => true end.

(** [StreamDetails] and [TopicDetails]: the programs read [.name] and [.id]. *)
Record StreamDetails : Type := { stream_name : string; stream_id : Z }.
Record TopicDetails : Type := { topic_name : string; topic_id : Z }.

(** [SendMessage], imported as [Message]: built from a [str] payload. *)
Record SendMessage : Type := Message { send_payload : string }.

(** [ReceiveMessage]: [.offset()] and [.payload()], the latter raw bytes. *)
Record ReceiveMessage : Type := { offset : Z; payload : string }.

(** [PollingStrategy]; the consumer only builds [PollingStrategy.Next()]. *)
Inductive PollingStrategy : Type :=
| Offset (value : Z)
| First
| Last
| Next.

(** loguru levels used by the programs.  [logger.exception] is recorded as a
    separate event because it also emits the traceback. *)
Inductive level : Type := DEBUG | INFO | WARNING | ERROR.

(** Calls on the client object, with the keyword arguments of the source. *)
Inductive request : Type :=
| Connect
| LoginUser (username password : string)
| GetStream (name : string)
| CreateStream (name : string) (stream_id : Z)
| GetTopic (stream topic : string)
| CreateTopic (stream : string) (partitions_count : Z) (name : string)
    (replication_factor : Z)
| SendMessages (stream topic : string) (partitioning : Z)
    (messages : list SendMessage)
| PollMessages (stream topic : string) (partition_id : Z)
    (polling_strategy : PollingStrategy) (count : Z) (auto_commit : bool).

Inductive reply : Type :=
| NoValue
| AStream (s : option StreamDetails)
| ATopic (t : option TopicDetails)
| Polled (messages : list ReceiveMessage).

Inductive event : Type :=
| Log (l : level) (msg : string)
| LogException (msg : string)
| Invoke (r : request) (res : result reply)
| Sleep (seconds : Q).

(** How a program run ended: it returned, an exception escaped it, or the
    iteration budget given to the model ran out while its loop was still
    running. *)
Inductive status : Type :=
| Finished
| Raised (e : exn)
| OutOfFuel.

(** ** The client objects *)

(** [apache_messenger.MessengerClient], as far as the producer uses it. *)
Class MessengerClient (W : Type) : Type := {
  connect : W → result unit * W;
  login_user : string → string → W → result unit * W;
  get_stream : string → W → result (option StreamDetails) * W;
  create_stream : string → Z → W → result unit * W;
  get_topic : string → string → W → result (option TopicDetails) * W;
  create_topic : string → Z → string → Z → W → result unit * W;
  send_messages : string → string → Z → list SendMessage → W → result unit * W
}.

(** [apache_iggy.IggyClient], as far as the consumer uses it. *)
Class IggyClient (W : Type) : Type := {
  iggy_connect : W → result unit * W;
  poll_messages :
    string → string → Z → PollingStrategy → Z → bool → W →
    result (list ReceiveMessage) * W
}.

(** Erase the value of a result to the [reply] recorded in the trace. *)
Definition as_reply {A} (f : A → reply) (r : result A) : result reply :=
  match r with Return a => Return (f a) | Raise e => Raise e end.

(** ** Reading a trace *)

Definition sent_batch (e : event) : option (list SendMessage * result reply) :=
  match e with
  | Invoke (SendMessages _ _ _ ms) r => Some (ms, r)
  | _ => None
  end.

(** The send calls of a trace, in order: the batch and the call's outcome. *)
Definition sends (t : list event) : list (list SendMessage * result reply) :=
  omap sent_batch t.

Definition is_create_stream (e : event) : bool :=
  match e with Invoke (CreateStream _ _) _ => true | _ => false end.

Definition is_create_topic (e : event) : bool :=
  match e with Invoke (CreateTopic _ _ _ _) _ => true | _ => false end.

Definition is_create (e : event) : bool :=
  is_create_stream e || is_create_topic e.

Definition is_error_log (e : event) : bool :=
  match e with
  | Log ERROR _ | LogException _ => true
  | _ => false
  end.


Definition is_sleep (e : event) : bool :=
  match e with Sleep _ => true | _ => false end.

Definition polled_batch (e : event) : option (result reply) :=
  match e with
  | Invoke (PollMessages _ _ _ _ _ _) r => Some r
  | _ => None
  end.

(** The poll calls of a trace, in order, by what they returned. *)
Definition polls (t : list event) : list (result reply) := omap polled_batch t.

(** ** The producer, [producer.py] *)

Module Producer.

Definition STREAM_NAME : string := "sample-stream".
Definition TOPIC_NAME : string := "sample-topic".
Definition STREAM_ID : Z := 1.
Definition TOPIC_ID : Z := 1.
Definition PARTITION_ID : Z := 1.
Definition BATCHES_LIMIT : Z := 5.

(** [interval = 0.5], in seconds. *)
Definition interval : Q := 1 # 2.

(** The value of the local [messages_per_batch]. *)
Definition messages_per_batch : Z := 10.

(** State of the [while] loop of [produce_messages] once it stopped (or was
    stopped): the two counters, the client, what happened. *)
Record produced (W : Type) : Type := Produced {
  p_status : status;
  p_world : W;
  current_id : Z;
  n_sent_batches : Z;
  p_trace : list event
}.
Arguments Produced {W}.
Arguments p_status {W}.
Arguments p_world {W}.
Arguments current_id {W}.
Arguments n_sent_batches {W}.
Arguments p_trace {W}.

(** A finished call of [main], [init_system] or [produce_messages]. *)
Record run (W : Type) : Type := Run {
  r_status : status;
  r_world : W;
  r_trace : list event
}.
Arguments Run {W}.
Arguments r_status {W}.
Arguments r_world {W}.
Arguments r_trace {W}.

Section Program.
Context {W : Type} `{!MessengerClient W}.

(** The first [try] block of [init_system]; the [except] clause catches every
    [Exception], logs it twice and falls through. *)
Definition ensure_stream (w : W) : W * list event :=
  let start := Log INFO ("Creating stream with name " +:+ STREAM_NAME +:+ "...") in
  match get_stream STREAM_NAME w with
  | (Return None, w1) =>
      let got := Invoke (GetStream STREAM_NAME) (Return (AStream None)) in
      match create_stream STREAM_NAME STREAM_ID w1 with
      | (Return _, w2) =>
          (w2, [start; got;
                Invoke (CreateStream STREAM_NAME STREAM_ID) (Return NoValue);
                Log INFO "Stream was created successfully."])
      | (Raise error, w2) =>
          (w2, [start; got;
                Invoke (CreateStream STREAM_NAME STREAM_ID) (Raise error);
                Log ERROR ("Error creating stream: " +:+ exn_msg error);
                LogException (exn_msg error)])
      end
  | (Return (Some stream), w1) =>
      (w1, [start;
            Invoke (GetStream STREAM_NAME) (Return (AStream (Some stream)));
            Log WARNING ("Stream " +:+ stream_name stream +:+
                         " already exists with ID " +:+ pretty (stream_id stream))])
  | (Raise error, w1) =>
      (w1, [start;
            Invoke (GetStream STREAM_NAME) (Raise error);
            Log ERROR ("Error creating stream: " +:+ exn_msg error);
            LogException (exn_msg error)])
  end.

(** The second [try] block of [init_system]. *)
Definition ensure_topic (w : W) : W * list event :=
  let start :=
    Log INFO ("Creating topic " +:+ TOPIC_NAME +:+ " in stream " +:+ STREAM_NAME) in
  match get_topic STREAM_NAME TOPIC_NAME w with
  | (Return None, w1) =>
      let got := Invoke (GetTopic STREAM_NAME TOPIC_NAME) (Return (ATopic None)) in
      match create_topic STREAM_NAME 1 TOPIC_NAME 1 w1 with
      | (Return _, w2) =>
          (w2, [start; got;
                Invoke (CreateTopic STREAM_NAME 1 TOPIC_NAME 1) (Return NoValue);
                Log INFO "Topic was created successfully."])
      | (Raise error, w2) =>
          (w2, [start; got;
                Invoke (CreateTopic STREAM_NAME 1 TOPIC_NAME 1) (Raise error);
                Log ERROR ("Error creating topic " +:+ exn_msg error);
                LogException (exn_msg error)])
      end
  | (Return (Some topic), w1) =>
      (w1, [start;
            Invoke (GetTopic STREAM_NAME TOPIC_NAME) (Return (ATopic (Some topic)));
            Log WARNING ("Topic " +:+ topic_name topic +:+
                         " already exists with ID " +:+ pretty (topic_id topic))])
  | (Raise error, w1) =>
      (w1, [start;
            Invoke (GetTopic STREAM_NAME TOPIC_NAME) (Raise error);
            Log ERROR ("Error creating topic " +:+ exn_msg error);
            LogException (exn_msg error)])
  end.

(** [init_system]: both blocks, one after the other.  Nothing escapes it, so
    it always returns. *)
Definition init_system (w : W) : run W :=
  let '(w1, t1) := ensure_stream w in
  let '(w2, t2) := ensure_topic w1 in
  Run Finished w2 (t1 ++ t2).

(** [f"message-{current_id}"]. *)
Definition payload_of (id : Z) : string := "message-" +:+ pretty id.

(** The inner [for _ in range(messages_per_batch)] loop: [k] iterations, each
    incrementing [current_id] and appending one message. *)
Fixpoint build_batch (k : nat) (current_id : Z) (messages : list SendMessage)
  : Z * list SendMessage :=
  match k with
  | O => (current_id, messages)
  | S k' =>
      let current_id := current_id + 1 in
      let payload := payload_of current_id in
      let message := Message payload in
      build_batch k' current_id (messages ++ [message])
  end.

(** [current_id // messages_per_batch] inside an f-string: floor division,
    [ZeroDivisionError] on a zero divisor. *)
Definition floordiv (a b : Z) : result Z :=
  if decide (b = 0)
  then Raise (Exn "ZeroDivisionError" "integer division or modulo by zero")
  else Return (a `div` b).

Section Loop.
(** The loop is stated for any limit and any batch size; the program uses
    [BATCHES_LIMIT] and [messages_per_batch]. *)
Variable limit : Z.
Variable per_batch : Z.

Definition attempt_line (batch_id : Z) : string :=
  "Attempting to send batch of " +:+ pretty per_batch +:+
  " messages. Batch ID: " +:+ pretty batch_id.

Definition success_line (batch_id : Z) : string :=
  "Successfully sent batch of " +:+ pretty per_batch +:+
  " messages. Batch ID: " +:+ pretty batch_id.

Definition error_line (error : exn) : string :=
  "Exception type: " +:+ exn_type error +:+ ", message: " +:+ exn_msg error.

(** One pass through the body of the [while] loop.  [inl] is an exception
    leaving the body (only the f-string division can do that, it sits outside
    the [try]); [inr] is the state at the end of the body. *)
Definition produce_body (w : W) (current_id n_sent_batches : Z)
  : list event * (exn + W * Z * Z) :=
  let '(current_id, messages) :=
    build_batch (Z.to_nat per_batch) current_id [] in
  match floordiv current_id per_batch with
  | Raise zero => ([], inl zero)
  | Return batch_id =>
      let call := SendMessages STREAM_NAME TOPIC_NAME PARTITION_ID messages in
      match send_messages STREAM_NAME TOPIC_NAME PARTITION_ID messages w with
      | (Return _, w') =>
          ([Log INFO (attempt_line batch_id);
            Invoke call (Return NoValue);
            Log INFO (success_line batch_id);
            Sleep interval],
           inr (w', current_id, n_sent_batches + 1))
      | (Raise error, w') =>
          ([Log INFO (attempt_line batch_id);
            Invoke call (Raise error);
            Log ERROR (error_line error);
            LogException (exn_msg error);
            Sleep interval],
           inr (w', current_id, n_sent_batches))
      end
  end.

(** [while n_sent_batches < BATCHES_LIMIT: ...], run for at most [fuel]
    iterations. *)
Fixpoint produce_loop (fuel : nat) (w : W) (current_id n_sent_batches : Z)
  : produced W :=
  if decide (n_sent_batches < limit) then
    match fuel with
    | O => Produced OutOfFuel w current_id n_sent_batches []
    | S fuel' =>
        match produce_body w current_id n_sent_batches with
        | (t, inl error) => Produced (Raised error) w current_id n_sent_batches t
        | (t, inr (w', current_id', n_sent_batches')) =>
            let r := produce_loop fuel' w' current_id' n_sent_batches' in
            Produced (p_status r) (p_world r) (Producer.current_id r)
              (Producer.n_sent_batches r) (t ++ p_trace r)
        end
    end
  else Produced Finished w current_id n_sent_batches [].

Definition opening_line : string :=
  "Messages will be sent to stream: " +:+ STREAM_NAME +:+ ", topic: " +:+
  TOPIC_NAME +:+ ", partition: " +:+ pretty PARTITION_ID +:+
  " with interval 500.0 ms.".

Definition closing_line (n_sent_batches : Z) : string :=
  "Sent " +:+ pretty n_sent_batches +:+ " batches of messages, exiting.".

(** [produce_messages] with the limit and the batch size as parameters. *)
Definition produce_messages_with (fuel : nat) (w : W) : run W :=
  let r := produce_loop fuel w 0 0 in
  match p_status r with
  | Finished =>
      Run Finished (p_world r)
        (Log INFO opening_line :: p_trace r ++
         [Log INFO (closing_line (n_sent_batches r))])
  | st => Run st (p_world r) (Log INFO opening_line :: p_trace r)
  end.

(** [main] after argument parsing and the construction of the client:
    connect, log in, provision, produce.  An exception of [connect] or
    [login_user] escapes; [init_system] is followed by [produce_messages]
    unconditionally. *)
Definition main_with (fuel : nat) (w : W) : run W :=
  let t0 := [Log INFO "Connecting to MessengerClient"] in
  match connect w with
  | (Raise error, w1) =>
      Run (Raised error) w1 (t0 ++ [Invoke Connect (Raise error)])
  | (Return _, w1) =>
      let t1 := t0 ++ [Invoke Connect (Return NoValue);
                       Log INFO "Connected. Logging in user..."] in
      let login := LoginUser "messenger" "messenger" in
      match login_user "messenger" "messenger" w1 with
      | (Raise error, w2) => Run (Raised error) w2 (t1 ++ [Invoke login (Raise error)])
      | (Return _, w2) =>
          let t2 := t1 ++ [Invoke login (Return NoValue); Log INFO "Logged in."] in
          let r3 := init_system w2 in
          let r4 := produce_messages_with fuel (r_world r3) in
          Run (r_status r4) (r_world r4) (t2 ++ r_trace r3 ++ r_trace r4)
      end
  end.

End Loop.

Definition produce_messages : nat → W → run W :=
  produce_messages_with BATCHES_LIMIT messages_per_batch.

Definition main : nat → W → run W := main_with BATCHES_LIMIT messages_per_batch.

End Program.
End Producer.

(** ** The consumer, [consumer.py] *)

Module Consumer.

Definition STREAM_NAME : string := "sample-stream".
Definition TOPIC_NAME : string := "sample-topic".
Definition STREAM_ID : Z := 1.
Definition TOPIC_ID : Z := 1.
Definition PARTITION_ID : Z := 1.
Definition BATCHES_LIMIT : Z := 5.

Definition interval : Q := 1 # 2.
Definition messages_per_batch : Z := 10.

(** State of the [while] loop of [consume_messages] once it stopped.
    [c_fatal] is the exception that reached the [except] clause and made the
    loop [break], if any. *)
Record consumed (W : Type) : Type := Consumed {
  c_status : status;
  c_fatal : option exn;
  c_world : W;
  c_offset : Z;
  n_consumed_batches : Z;
  c_trace : list event
}.
Arguments Consumed {W}.
Arguments c_status {W}.
Arguments c_fatal {W}.
Arguments c_world {W}.
Arguments c_offset {W}.
Arguments n_consumed_batches {W}.
Arguments c_trace {W}.

Record run (W : Type) : Type := Run {
  r_status : status;
  r_world : W;
  r_trace : list event
}.
Arguments Run {W}.
Arguments r_status {W}.
Arguments r_world {W}.
Arguments r_trace {W}.

(** How one pass through the loop body ends. *)
Inductive step (W : Type) : Type :=
| Continue (w : W) (offset n_consumed_batches : Z)
| Break (error : exn) (w : W) (offset n_consumed_batches : Z).
Arguments Continue {W}.
Arguments Break {W}.

(** The value of [offset] and of [n_consumed_batches] at the end of a pass. *)
Definition step_offset {W} (s : step W) : Z :=
  match s with Continue _ offset _ | Break _ _ offset _ => offset end.

Definition step_count {W} (s : step W) : Z :=
  match s with Continue _ _ n | Break _ _ _ n => n end.

Section Program.
Context {W : Type} `{!IggyClient W}.

(** [bytes.decode("utf-8")]: the text, or [UnicodeDecodeError]. *)
Variable decode : string → result string.

Definition handled_line (message : ReceiveMessage) (text : string) : string :=
  "Handling message at offset: " +:+ pretty (offset message) +:+
  " with payload: " +:+ text +:+ "...".

(** [handle_message]: decode, then one log line. *)
Definition handle_message (message : ReceiveMessage) : result event :=
  match decode (payload message) with
  | Return text => Return (Log INFO (handled_line message text))
  | Raise error => Raise error
  end.

(** [for message in polled_messages: handle_message(message)]; stops at the
    first message whose handling raises. *)
Fixpoint handle_each (polled_messages : list ReceiveMessage)
  : list event * option exn :=
  match polled_messages with
  | [] => ([], None)
  | message :: rest =>
      match handle_message message with
      | Raise error => ([], Some error)
      | Return line =>
          let '(t, r) := handle_each rest in (line :: t, r)
      end
  end.

Section Loop.
Variable limit : Z.
Variable per_batch : Z.

Definition poll_request : request :=
  PollMessages STREAM_NAME TOPIC_NAME PARTITION_ID Next per_batch true.

Definition fatal_line (error : exn) : string :=
  "Exception occurred while consuming messages: " +:+ exn_msg error.

(** One pass through the body of the [while] loop. *)
Definition consume_body (w : W) (offset n_consumed_batches : Z)
  : list event * step W :=
  let start := Log DEBUG "Polling for messages..." in
  match poll_messages STREAM_NAME TOPIC_NAME PARTITION_ID Next per_batch true w with
  | (Raise error, w') =>
      ([start; Invoke poll_request (Raise error);
        LogException (fatal_line error)],
       Break error w' offset n_consumed_batches)
  | (Return [], w') =>
      ([start; Invoke poll_request (Return (Polled []));
        Log INFO "No messages found in current poll";
        Sleep interval],
       Continue w' offset n_consumed_batches)
  | (Return polled_messages, w') =>
      let offset := offset + Z.of_nat (length polled_messages) in
      let got := Invoke poll_request (Return (Polled polled_messages)) in
      match handle_each polled_messages with
      | (t, Some error) =>
          ([start; got] ++ t ++ [LogException (fatal_line error)],
           Break error w' offset n_consumed_batches)
      | (t, None) =>
          ([start; got] ++ t ++ [Sleep interval],
           Continue w' offset (n_consumed_batches + 1))
      end
  end.

(** [while n_consumed_batches < BATCHES_LIMIT: ...], run for at most [fuel]
    iterations. *)
Fixpoint consume_loop (fuel : nat) (w : W) (offset n_consumed_batches : Z)
  : consumed W :=
  if decide (n_consumed_batches < limit) then
    match fuel with
    | O => Consumed OutOfFuel None w offset n_consumed_batches []
    | S fuel' =>
        match consume_body w offset n_consumed_batches with
        | (t, Break error w' offset' n') =>
            Consumed Finished (Some error) w' offset' n' t
        | (t, Continue w' offset' n') =>
            let r := consume_loop fuel' w' offset' n' in
            Consumed (c_status r) (c_fatal r) (c_world r) (c_offset r)
              (Consumer.n_consumed_batches r) (t ++ c_trace r)
        end
    end
  else Consumed Finished None w offset n_consumed_batches [].

Definition opening_line : string :=
  "Messages will be consumed from stream: " +:+ STREAM_NAME +:+ ", topic: " +:+
  TOPIC_NAME +:+ ", partition: " +:+ pretty PARTITION_ID +:+
  " with interval 500.0 ms.".

Definition closing_line (n_consumed_batches : Z) : string :=
  "Consumed " +:+ pretty n_consumed_batches +:+ " batches of messages, exiting.".

Definition consume_messages_with (fuel : nat) (w : W) : run W :=
  let r := consume_loop fuel w 0 0 in
  match c_status r with
  | Finished =>
      Run Finished (c_world r)
        (Log INFO opening_line :: c_trace r ++
         [Log INFO (closing_line (n_consumed_batches r))])
  | st => Run st (c_world r) (Log INFO opening_line :: c_trace r)
  end.

Definition main_with (fuel : nat) (w : W) : run W :=
  let t0 := [Log INFO "Connecting to Iggy"] in
  match iggy_connect w with
  | (Raise error, w1) =>
      Run (Raised error) w1 (t0 ++ [Invoke Connect (Raise error)])
  | (Return _, w1) =>
      let t1 := t0 ++ [Invoke Connect (Return NoValue); Log INFO "Connected"] in
      let r := consume_messages_with fuel w1 in
      Run (r_status r) (r_world r) (t1 ++ r_trace r)
  end.

End Loop.

Definition consume_messages : nat → W → run W :=
  consume_messages_with BATCHES_LIMIT messages_per_batch.

Definition main : nat → W → run W := main_with BATCHES_LIMIT messages_per_batch.

End Program.
End Consumer.

(** ** A broker behind the client *)

Module Broker.

(** Modelled from the spec: the SDK client and the broker behind it
    ([apache_messenger] / [apache_iggy], imported by the two programs, are
    not among the sources).  Sections 3 and 6 of the specification: streams
    are named and numbered; a topic belongs to one stream and has a fixed
    number of partitions; a partition is an append-only sequence addressed by
    offsets from 0; the cursor of the consumer is kept per partition and is
    moved by an auto-committing poll.  The partitions of a topic are
    addressed by a zero-based id (section 3): a topic created with [p]
    partitions has the partitions [0 .. p - 1].
    [faults] is the plan of transport failures: each call consumes one entry,
    [true] makes that call raise before reaching the broker. *)
Record t : Type := Make {
  streams : gmap string Z;
  topics : gmap (string * string) Z;
  logs : gmap (string * string * Z) (list string);
  cursors : gmap (string * string * Z) Z;
  faults : list bool
}.

Definition empty : t := Make ∅ ∅ ∅ ∅ [].

Definition with_faults (plan : list bool) (σ : t) : t :=
  Make (streams σ) (topics σ) (logs σ) (cursors σ) plan.

Definition transport_error : exn := Exn "RuntimeError" "transport failure".
Definition already_exists : exn := Exn "RuntimeError" "resource already exists".
Definition not_found : exn := Exn "RuntimeError" "resource not found".

(** Every call first goes through the transport. *)
Definition over_transport {A} (op : t → result A * t) (σ : t) : result A * t :=
  match faults σ with
  | [] => op σ
  | true :: plan => (Raise transport_error, with_faults plan σ)
  | false :: plan => op (with_faults plan σ)
  end.

(** Modelled from the spec: [connect()] of the connector boundary (§6). *)
Definition connect : t → result unit * t :=
  over_transport (λ σ, (Return (), σ)).

(** Modelled from the spec: [login(user, pass)] (§6); credentials are not
    checked. *)
Definition login_user (username password : string) : t → result unit * t :=
  over_transport (λ σ, (Return (), σ)).

(** Modelled from the spec: [getStream(name) -> Stream|absent] (§6). *)
Definition get_stream (name : string) : t → result (option StreamDetails) * t :=
  over_transport (λ σ,
    (Return ((λ id, {| stream_name := name; stream_id := id |}) <$> streams σ !! name),
     σ)).

(** Modelled from the spec: [createStream(name, id)] (§6); names are unique
    and ids are not shared (§3), so a taken name or id is refused. *)
Definition create_stream (name : string) (id : Z) : t → result unit * t :=
  over_transport (λ σ,
    if decide (is_Some (streams σ !! name) ∨ id ∈ (map_img (streams σ) : gset Z))
    then (Raise already_exists, σ)
    else (Return (),
          Make (<[name := id]> (streams σ)) (topics σ) (logs σ) (cursors σ)
            (faults σ))).

(** Modelled from the spec: [getTopic(stream, name) -> Topic|absent] (§6). *)
Definition get_topic (stream topic : string)
  : t → result (option TopicDetails) * t :=
  over_transport (λ σ,
    (Return ((λ id, {| topic_name := topic; topic_id := id |})
             <$> topics σ !! (stream, topic)),
     σ)).

(** Topic ids are handed out per stream, counting from 1. *)
Definition next_topic_id (stream : string) (σ : t) : Z :=
  Z.of_nat (size (filter (λ kv, kv.1.1 = stream) (topics σ))) + 1.

(** Modelled from the spec: [createTopic(stream, name, partitionCount,
    replicationFactor)] (§6); the stream must exist, the name must be free,
    and the partitions, numbered from 0, start empty. *)
Definition create_topic (stream : string) (partitions_count : Z) (name : string)
    (replication_factor : Z) : t → result unit * t :=
  over_transport (λ σ,
    match streams σ !! stream, topics σ !! (stream, name) with
    | None, _ => (Raise not_found, σ)
    | Some _, Some _ => (Raise already_exists, σ)
    | Some _, None =>
        (Return (),
         Make (streams σ)
           (<[(stream, name) := next_topic_id stream σ]> (topics σ))
           (foldr (λ p acc, <[(stream, name, p) := []]> acc) (logs σ)
              (seqZ 0 partitions_count))
           (cursors σ) (faults σ))
    end).

(** Modelled from the spec: [send(stream, topic, partitionKey, messages)]
    (§6); the batch is appended to the partition in call order (§4.2). *)
Definition send_messages (stream topic : string) (partitioning : Z)
    (messages : list SendMessage) : t → result unit * t :=
  over_transport (λ σ,
    match logs σ !! (stream, topic, partitioning) with
    | None => (Raise not_found, σ)
    | Some log =>
        (Return (),
         Make (streams σ) (topics σ)
           (<[(stream, topic, partitioning) := log ++ (send_payload <$> messages)]>
              (logs σ))
           (cursors σ) (faults σ))
    end).

(** Where a poll starts reading. *)
Definition start_of (strategy : PollingStrategy) (cursor : Z) (count : Z)
    (log : list string) : Z :=
  match strategy with
  | Offset value => value
  | First => 0
  | Last => Z.max 0 (Z.of_nat (length log) - count)
  | Next => cursor
  end.

(** Modelled from the spec: [poll(stream, topic, partition, strategy, count,
    autoCommit)] (§6); up to [count] messages from the starting offset, with
    their offsets, and the cursor moved past them when auto-committing and
    the result is not empty (§4.3). *)
Definition poll_messages (stream topic : string) (partition_id : Z)
    (strategy : PollingStrategy) (count : Z) (auto_commit : bool)
  : t → result (list ReceiveMessage) * t :=
  over_transport (λ σ,
    let key := (stream, topic, partition_id) in
    match logs σ !! key with
    | None => (Raise not_found, σ)
    | Some log =>
        let start := start_of strategy (default 0 (cursors σ !! key)) count log in
        let found :=
          imap (λ i bytes, {| offset := start + Z.of_nat i; payload := bytes |})
            (take (Z.to_nat count) (drop (Z.to_nat start) log)) in
        (Return found,
         if auto_commit && bool_decide (found ≠ [])
         then Make (streams σ) (topics σ) (logs σ)
                (<[key := start + Z.of_nat (length found)]> (cursors σ)) (faults σ)
         else σ)
    end).

#[global] Instance messenger_client : MessengerClient t :=
  Build_MessengerClient t connect login_user get_stream create_stream get_topic
    create_topic send_messages.

#[global] Instance iggy_client : IggyClient t :=
  Build_IggyClient t connect poll_messages.

(** A broker on which the sample stream and topic exist already, with the
    given log in partition 1 and the given fault plan. *)
Definition provisioned (log : list string) (plan : list bool) : t :=
  Make {[ "sample-stream" := 1 ]}
       {[ ("sample-stream", "sample-topic") := 1 ]}
       {[ ("sample-stream", "sample-topic", 1) := log ]}
       ∅ plan.

End Broker.

(** The ASCII part of [bytes.decode("utf-8")]: text of 7-bit bytes decodes to
    itself; used to run the consumer on concrete logs. *)
Definition decode_ascii (bytes : string) : result string :=
  if forallb (λ c, Nat.ltb (Ascii.nat_of_ascii c) 128) (String.list_ascii_of_string bytes)
  then Return bytes
  else Raise (Exn "UnicodeDecodeError" "invalid start byte").

(** ** Vocabulary of the statements *)

(** The batch built by one pass of the producer when [current_id] stands at
    [c]: identifiers [c + 1 .. c + b], in this order. *)
Definition batch_from (b c : Z) : list SendMessage :=
  Message ∘ Producer.payload_of <$> seqZ (c + 1) b.

(** The batch expected at position [k] of a run, positions counted from 0:
    identifiers [k * b + 1 .. (k + 1) * b]. *)
Definition expected_batch (b : Z) (k : nat) : list SendMessage :=
  batch_from b (Z.of_nat k * b).

(** How many of the send calls returned, and how many raised. *)
Definition successes (calls : list (list SendMessage * result reply)) : nat :=
  length (filter (λ call, raised call.2 = false) calls).

Definition failures (calls : list (list SendMessage * result reply)) : nat :=
  length (filter (λ call, raised call.2 = true) calls).

(** Send and poll requests: the requests the two loops issue. *)
Definition is_transfer (e : event) : bool :=
  match e with
  | Invoke (SendMessages _ _ _ _) _ | Invoke (PollMessages _ _ _ _ _ _) _ => true
  | _ => false
  end.

(** [paced pause waiting t]: in [t] every pause lasts [pause], and no
    transfer request is issued while [waiting], that is, after an earlier
    transfer request and before the next pause. *)
Fixpoint paced (pause : Q) (waiting : bool) (t : list event) : bool :=
  match t with
  | [] => true
  | Sleep q :: t' => Qeq_bool q pause && paced pause false t'
  | e :: t' =>
      if is_transfer e then negb waiting && paced pause true t'
      else paced pause waiting t'
  end.

(** What the polls of a trace returned, summed. *)
Definition polled_count (r : result reply) : Z :=
  match r with
  | Return (Polled messages) => Z.of_nat (length messages)
  | _ => 0
  end.

Definition total_polled (t : list event) : Z :=
  foldr (λ r acc, polled_count r + acc) 0 (polls t).

Definition nonempty_poll (r : result reply) : bool :=
  match r with
  | Return (Polled (_ :: _)) => true
  | _ => false
  end.

Definition nonempty_polls (t : list event) : nat :=
  length (filter (λ r, nonempty_poll r = true) (polls t)).

Definition is_log (e : event) : bool :=
  match e with Log _ _ => true | _ => false end.

(** The events of one pass of the producer loop, given the batch size, the
    batch, the batch id and the outcome of the send call. *)
Definition pass_events (b : Z) (ms : list SendMessage) (batch_id : Z)
    (o : result unit) : list event :=
  let call :=
    SendMessages Producer.STREAM_NAME Producer.TOPIC_NAME Producer.PARTITION_ID ms in
  match o with
  | Return _ =>
      [Log INFO (Producer.attempt_line b batch_id); Invoke call (Return NoValue);
       Log INFO (Producer.success_line b batch_id); Sleep Producer.interval]
  | Raise error =>
      [Log INFO (Producer.attempt_line b batch_id); Invoke call (Raise error);
       Log ERROR (Producer.error_line error); LogException (exn_msg error);
       Sleep Producer.interval]
  end.

(** The four ways through the body of the consumer loop: the events of the
    pass and how it ends, from the client, [offset] and [n_consumed_batches]
    at its start. *)
Inductive pass {W : Type} `{!IggyClient W} (decode : string → result string)
    (b : Z) : W → Z → Z → list event → Consumer.step W → Prop :=
| pass_raise w off cnt e w' :
    poll_messages Consumer.STREAM_NAME Consumer.TOPIC_NAME Consumer.PARTITION_ID
      Next b true w = (Raise e, w') →
    pass decode b w off cnt
      [Log DEBUG "Polling for messages...";
       Invoke (Consumer.poll_request b) (Raise e);
       LogException (Consumer.fatal_line e)]
      (Consumer.Break e w' off cnt)
| pass_empty w off cnt w' :
    poll_messages Consumer.STREAM_NAME Consumer.TOPIC_NAME Consumer.PARTITION_ID
      Next b true w = (Return [], w') →
    pass decode b w off cnt
      [Log DEBUG "Polling for messages...";
       Invoke (Consumer.poll_request b) (Return (Polled []));
       Log INFO "No messages found in current poll"; Sleep Consumer.interval]
      (Consumer.Continue w' off cnt)
| pass_handler_raise w off cnt ms w' t e :
    poll_messages Consumer.STREAM_NAME Consumer.TOPIC_NAME Consumer.PARTITION_ID
      Next b true w = (Return ms, w') →
    ms ≠ [] →
    Consumer.handle_each decode ms = (t, Some e) →
    pass decode b w off cnt
      ([Log DEBUG "Polling for messages...";
        Invoke (Consumer.poll_request b) (Return (Polled ms))]
       ++ t ++ [LogException (Consumer.fatal_line e)])
      (Consumer.Break e w' (off + Z.of_nat (length ms)) cnt)
| pass_handled w off cnt ms w' t :
    poll_messages Consumer.STREAM_NAME Consumer.TOPIC_NAME Consumer.PARTITION_ID
      Next b true w = (Return ms, w') →
    ms ≠ [] →
    Consumer.handle_each decode ms = (t, None) →
    pass decode b w off cnt
      ([Log DEBUG "Polling for messages...";
        Invoke (Consumer.poll_request b) (Return (Polled ms))]
       ++ t ++ [Sleep Consumer.interval])
      (Consumer.Continue w' (off + Z.of_nat (length ms)) (cnt + 1)).

(** The events of [init_system] when it finds the stream and the topic. *)
Definition stream_start : event :=
  Log INFO ("Creating stream with name " +:+ Producer.STREAM_NAME +:+ "...").

Definition topic_start : event :=
  Log INFO ("Creating topic " +:+ Producer.TOPIC_NAME +:+ " in stream " +:+ Producer.STREAM_NAME).

Definition stream_exists_line (sid : Z) : event :=
  Log WARNING ("Stream " +:+ Producer.STREAM_NAME +:+ " already exists with ID " +:+ pretty sid).

Definition topic_exists_line (tid : Z) : event :=
  Log WARNING ("Topic " +:+ Producer.TOPIC_NAME +:+ " already exists with ID " +:+ pretty tid).

Definition found_stream (sid : Z) : event :=
  Invoke (GetStream Producer.STREAM_NAME)
    (Return (AStream (Some {| stream_name := Producer.STREAM_NAME; stream_id := sid |}))).

Definition found_topic (tid : Z) : event :=
  Invoke (GetTopic Producer.STREAM_NAME Producer.TOPIC_NAME)
    (Return (ATopic (Some {| topic_name := Producer.TOPIC_NAME; topic_id := tid |}))).

(** The broker after a successful [create_topic] of the sample topic. *)
Definition with_topic st tp lg cu : Broker.t :=
  Broker.Make st
    (<[(Producer.STREAM_NAME, Producer.TOPIC_NAME) :=
         Broker.next_topic_id Producer.STREAM_NAME (Broker.Make st tp lg cu [])]> tp)
    (foldr (λ p acc, <[(Producer.STREAM_NAME, Producer.TOPIC_NAME, p) := []]> acc) lg (seqZ 0 1))
    cu [].

(** *** The order of the requests *)

(** The client calls of a trace, in order, with their outcome. *)
Definition requests (t : list event) : list (request * result reply) :=
  omap (λ e, match e with Invoke r o => Some (r, o) | _ => None end) t.

(** A send call to the sample stream, topic and partition of the producer. *)
Definition is_sample_send (x : request * result reply) : bool :=
  match x.1 with
  | SendMessages s t p _ =>
      bool_decide (s = Producer.STREAM_NAME ∧ t = Producer.TOPIC_NAME ∧
                   p = Producer.PARTITION_ID)
  | _ => false
  end.

(** The requests of the producer from the topic lookup on: the lookup, a
    create call exactly when the lookup returned "absent", then send calls
    only. *)
Definition topic_steps (l : list (request * result reply)) : bool :=
  match l with
  | (GetTopic s t, Return (ATopic None)) :: (CreateTopic s' 1 t' 1, o) :: rest =>
      bool_decide (s = Producer.STREAM_NAME ∧ t = Producer.TOPIC_NAME ∧
                   s' = Producer.STREAM_NAME ∧ t' = Producer.TOPIC_NAME) &&
      forallb is_sample_send rest
  | (GetTopic s t, Return (ATopic (Some _))) :: rest
  | (GetTopic s t, Raise _) :: rest =>
      bool_decide (s = Producer.STREAM_NAME ∧ t = Producer.TOPIC_NAME) &&
      forallb is_sample_send rest
  | _ => false
  end.

(** The same from the stream lookup on. *)
Definition stream_steps (l : list (request * result reply)) : bool :=
  match l with
  | (GetStream s, Return (AStream None)) :: (CreateStream s' id, o) :: rest =>
      bool_decide (s = Producer.STREAM_NAME ∧ s' = Producer.STREAM_NAME ∧
                   id = Producer.STREAM_ID) &&
      topic_steps rest
  | (GetStream s, Return (AStream (Some _))) :: rest
  | (GetStream s, Raise _) :: rest =>
      bool_decide (s = Producer.STREAM_NAME) && topic_steps rest
  | _ => false
  end.

(** The requests a run of the producer may issue: a failed [connect] and
    nothing else; [connect], a failed [login_user] and nothing else; or
    [connect], [login_user], the provisioning steps and send calls. *)
Definition producer_protocol (l : list (request * result reply)) : bool :=
  match l with
  | [(Connect, Raise _)] => true
  | [(Connect, Return NoValue); (LoginUser "messenger" "messenger", Raise _)] =>
      true
  | (Connect, Return NoValue) ::
    (LoginUser "messenger" "messenger", Return NoValue) :: rest =>
      stream_steps rest
  | _ => false
  end.

(** The requests a run of the consumer may issue: a failed [connect] and
    nothing else, or [connect] and then only polls of the sample partition
    for the next [b] messages with auto-commit; a poll that raised is the
    last one. *)
Fixpoint only_polls (b : Z) (l : list (request * result reply)) : Prop :=
  match l with
  | [] => True
  | (r, o) :: rest =>
      r = Consumer.poll_request b ∧ (raised o = true → rest = []) ∧
      only_polls b rest
  end.

Definition consumer_protocol (b : Z) (l : list (request * result reply)) : Prop :=
  match l with
  | (Connect, Raise _) :: rest => rest = []
  | (Connect, Return NoValue) :: rest => only_polls b rest
  | _ => False
  end.

(** *** Runs against the broker *)

(** The partition both programs use. *)
Definition sample_key : string * string * Z :=
  (Producer.STREAM_NAME, Producer.TOPIC_NAME, Producer.PARTITION_ID).

(** The messages a poll for [b] messages returns from a log read up to [c]:
    the next (at most) [b] entries, with their offsets. *)
Definition slice (log : list string) (c b : Z) : list ReceiveMessage :=
  imap (λ i bytes, {| offset := c + Z.of_nat i; payload := bytes |})
    (take (Z.to_nat b) (drop (Z.to_nat c) log)).

(** The events of a pass of the consumer loop whose poll returned [ms] and
    whose messages all decode to themselves. *)
Definition handled_pass (b : Z) (ms : list ReceiveMessage) : list event :=
  [Log DEBUG "Polling for messages...";
   Invoke (Consumer.poll_request b) (Return (Polled ms))] ++
  ((λ m, Log INFO (Consumer.handled_line m (payload m))) <$> ms) ++
  [Sleep Consumer.interval].

(** The events of a pass of the consumer loop whose poll returned nothing. *)
Definition quiet_pass (b : Z) : list event :=
  [Log DEBUG "Polling for messages...";
   Invoke (Consumer.poll_request b) (Return (Polled []));
   Log INFO "No messages found in current poll"; Sleep Consumer.interval].


(** The positions of the send calls that get through when the transport
    fails as [plan] says ([true]: the call at that position fails), counted
    from position [k], until [need] calls have got through.  Once the plan is
    used up every call gets through. *)
Fixpoint delivered (plan : list bool) (k need : nat) : list nat :=
  match plan with
  | [] => seq k need
  | failed :: plan' =>
      match need with
      | O => []
      | S need' =>
          if failed then delivered plan' (S k) need
          else k :: delivered plan' (S k) need'
      end
  end.

(** The payloads of the batch at position [k]. *)
Definition batch_payloads (b : Z) (k : nat) : list string :=
  send_payload <$> expected_batch b k.

(** ** Reading a trace piecewise *)

Lemma sends_app (t1 t2 : list event) : sends (t1 ++ t2) = sends t1 ++ sends t2.
Proof. apply omap_app. Qed.

Lemma polls_app (t1 t2 : list event) : polls (t1 ++ t2) = polls t1 ++ polls t2.
Proof. apply omap_app. Qed.

Lemma sends_log (l : level) (msg : string) (t : list event) :
  sends (Log l msg :: t) = sends t.
Proof. reflexivity. Qed.

Lemma sends_nil : sends [] = [].
Proof. reflexivity. Qed.

Lemma polls_log (l : level) (msg : string) (t : list event) :
  polls (Log l msg :: t) = polls t.
Proof. reflexivity. Qed.

Lemma polls_nil : polls [] = [].
Proof. reflexivity. Qed.

Arguments sends : simpl never.
Arguments polls : simpl never.

(** ** The producer loop *)

Module ProducerFacts.
Import Producer.

Section Generic.
Context {W : Type} `{!MessengerClient W}.
Variable limit : Z.
Variable b : Z.
Hypothesis b_pos : 0 < b.

Lemma build_batch_spec (k : nat) (c : Z) (acc : list SendMessage) :
  build_batch k c acc =
  (c + Z.of_nat k, acc ++ (Message ∘ payload_of <$> seqZ (c + 1) (Z.of_nat k))).
Proof.
  revert c acc. induction k as [|k IH]; intros c acc.
  - simpl. rewrite app_nil_r, Z.add_0_r. reflexivity.
  - cbn [build_batch]. rewrite IH. apply pair_equal_spec. split; [lia|].
    rewrite <- app_assoc. apply (f_equal (app acc)).
    rewrite (seqZ_cons (c + 1) (Z.of_nat (S k))) by lia.
    rewrite fmap_cons. simpl.
    replace (Z.pred (Z.of_nat (S k))) with (Z.of_nat k) by lia.
    replace (Z.succ (c + 1)) with (c + 1 + 1) by lia. reflexivity.
Qed.

Lemma produce_body_spec (w : W) (c s : Z) :
  let ms := batch_from b c in
  let sent := send_messages STREAM_NAME TOPIC_NAME PARTITION_ID ms w in
  produce_body b w c s =
  (pass_events b ms ((c + b) `div` b) sent.1,
   inr (sent.2, c + b, if raised sent.1 then s else s + 1)).
Proof.
  intros ms sent. unfold produce_body.
  rewrite build_batch_spec, Z2Nat.id by lia. rewrite app_nil_l.
  unfold floordiv. destruct (decide (b = 0)) as [?|_]; [lia|].
  fold (batch_from b c). fold ms. fold sent.
  destruct sent as [[[]|error] w']; reflexivity.
Qed.

(** One unfolding of the loop while its condition holds. *)
Lemma produce_loop_step (fuel : nat) (w : W) (c s : Z) :
  s < limit →
  ∃ (o : result unit) (w' : W),
    let r := produce_loop limit b (S fuel) w c s in
    let r' := produce_loop limit b fuel w' (c + b) (if raised o then s else s + 1) in
    send_messages STREAM_NAME TOPIC_NAME PARTITION_ID (batch_from b c) w = (o, w') ∧
    p_trace r = pass_events b (batch_from b c) ((c + b) `div` b) o ++ p_trace r' ∧
    p_status r = p_status r' ∧
    p_world r = p_world r' ∧
    current_id r = current_id r' ∧
    n_sent_batches r = n_sent_batches r'.
Proof.
  intros Hs.
  exists (send_messages STREAM_NAME TOPIC_NAME PARTITION_ID (batch_from b c) w).1,
         (send_messages STREAM_NAME TOPIC_NAME PARTITION_ID (batch_from b c) w).2.
  cbn [produce_loop]. destruct (decide (s < limit)) as [_|?]; [|lia].
  rewrite produce_body_spec. cbn zeta. cbn [p_trace p_status p_world current_id n_sent_batches].
  split; [by destruct (send_messages _ _ _ _ _)|]. done.
Qed.

Lemma produce_loop_stop (fuel : nat) (w : W) (c s : Z) :
  limit ≤ s → produce_loop limit b fuel w c s = Produced Finished w c s [].
Proof.
  intros Hs. destruct fuel; cbn [produce_loop];
    destruct (decide (s < limit)); (lia || reflexivity).
Qed.

Lemma produce_loop_starved (w : W) (c s : Z) :
  s < limit → produce_loop limit b 0 w c s = Produced OutOfFuel w c s [].
Proof.
  intros Hs. cbn [produce_loop]. destruct (decide (s < limit)); (lia || reflexivity).
Qed.

Lemma sends_pass_events (ms : list SendMessage) (id : Z) (o : result unit) :
  sends (pass_events b ms id o) = [(ms, as_reply (λ _, NoValue) o)].
Proof. destruct o as [[]|e]; reflexivity. Qed.

Lemma successes_cons (ms : list SendMessage) (o : result reply)
    (calls : list (list SendMessage * result reply)) :
  successes ((ms, o) :: calls) =
  ((if raised o then 0 else 1) + successes calls)%nat.
Proof.
  unfold successes. rewrite filter_cons. simpl.
  destruct (raised o); case_decide; simpl; congruence.
Qed.

Lemma failures_cons (ms : list SendMessage) (o : result reply)
    (calls : list (list SendMessage * result reply)) :
  failures ((ms, o) :: calls) =
  ((if raised o then 1 else 0) + failures calls)%nat.
Proof.
  unfold failures. rewrite filter_cons. simpl.
  destruct (raised o); case_decide; simpl; congruence.
Qed.

Lemma successes_failures (calls : list (list SendMessage * result reply)) :
  (successes calls + failures calls)%nat = length calls.
Proof.
  induction calls as [|[ms o] calls IH]; [reflexivity|].
  rewrite successes_cons, failures_cons. simpl. destruct (raised o); lia.
Qed.

Lemma raised_as_reply {A} (f : A → reply) (o : result A) :
  raised (as_reply f o) = raised o.
Proof. by destruct o. Qed.

(** Case analysis shared by the inductions below: the loop has stopped, is
    out of fuel, or makes one pass and continues. *)
Ltac produce_cases fuel w c s IH :=
  induction fuel as [|fuel IH]; intros w c s; cbn zeta; try cbn zeta in IH;
  destruct (decide (s < limit)) as [Hs|Hs];
  [ rewrite (produce_loop_starved w c s Hs)
  | rewrite (produce_loop_stop 0 w c s) by lia
  | destruct (produce_loop_step fuel w c s Hs)
      as (o & w' & Hsend & Htr & Hst & Hw & Hid & Hn);
    cbn zeta in Htr, Hst, Hw, Hid, Hn;
    try rewrite Htr; try rewrite Hst; try rewrite Hid; try rewrite Hn;
    rewrite ?sends_app, ?sends_pass_events
  | rewrite (produce_loop_stop (S fuel) w c s) by lia ];
  cbn [p_trace p_status p_world current_id n_sent_batches].

(** Position [k] of the send calls carries the batch built at counter
    [c + k * b]. *)
Lemma sends_lookup (fuel : nat) : ∀ (w : W) (c s : Z) (k : nat) ms o,
  sends (p_trace (produce_loop limit b fuel w c s)) !! k = Some (ms, o) →
  ms = batch_from b (c + Z.of_nat k * b).
Proof.
  produce_cases fuel w c s IH; intros k ms out Hk; try done.
  destruct k as [|k]; simpl in Hk.
  - injection Hk as <- _. f_equal. lia.
  - apply IH in Hk. subst ms. f_equal. lia.
Qed.

Lemma current_id_sends (fuel : nat) : ∀ (w : W) (c s : Z),
  let r := produce_loop limit b fuel w c s in
  current_id r = c + b * Z.of_nat (length (sends (p_trace r))).
Proof.
  produce_cases fuel w c s IH; simpl; try lia.
  rewrite IH. lia.
Qed.

Lemma n_sent_successes (fuel : nat) : ∀ (w : W) (c s : Z),
  let r := produce_loop limit b fuel w c s in
  n_sent_batches r = s + Z.of_nat (successes (sends (p_trace r))).
Proof.
  produce_cases fuel w c s IH; simpl; try (unfold successes; simpl; lia).
  rewrite IH, successes_cons, raised_as_reply. destruct (raised o); lia.
Qed.

Lemma n_sent_bound (fuel : nat) : ∀ (w : W) (c s : Z),
  s ≤ limit → n_sent_batches (produce_loop limit b fuel w c s) ≤ limit.
Proof.
  produce_cases fuel w c s IH; intros Hle; try done.
  apply IH. destruct (raised o); lia.
Qed.

Lemma produce_loop_status (fuel : nat) : ∀ (w : W) (c s : Z),
  let r := produce_loop limit b fuel w c s in
  p_status r = Finished ∧ limit ≤ n_sent_batches r ∨
  p_status r = OutOfFuel ∧ n_sent_batches r < limit ∧
    length (sends (p_trace r)) = fuel.
Proof.
  produce_cases fuel w c s IH; simpl; try (by left; split; [|lia]);
    try (by right).
  destruct (IH w' (c + b) (if raised o then s else s + 1)) as [?|(?&?&?)];
    [by left|right; auto].
Qed.

(** A failed send is followed by another send whenever the budget allows
    one more pass. *)
Lemma send_after_failure (fuel : nat) : ∀ (w : W) (c s : Z) (k : nat) ms e,
  sends (p_trace (produce_loop limit b fuel w c s)) !! k = Some (ms, Raise e) →
  (S k < fuel)%nat →
  is_Some (sends (p_trace (produce_loop limit b fuel w c s)) !! S k).
Proof.
  produce_cases fuel w c s IH; intros k ms e Hk Hfuel; try done.
  destruct k as [|k]; simpl in Hk |- *.
  - injection Hk as _ Ho. destruct o as [[]|e']; [done|]. simpl.
    destruct fuel as [|fuel]; [lia|].
    destruct (produce_loop_step fuel w' (c + b) s Hs)
      as (o2 & w2 & _ & Htr2 & _).
    cbn zeta in Htr2. rewrite Htr2, sends_app, sends_pass_events. by eexists.
  - eapply IH; [done|lia].
Qed.

Lemma sends_joined (fuel : nat) : ∀ (w : W) (c s : Z),
  let calls := sends (p_trace (produce_loop limit b fuel w c s)) in
  mjoin calls.*1 =
  Message ∘ payload_of <$> seqZ (c + 1) (b * Z.of_nat (length calls)).
Proof.
  produce_cases fuel w c s IH; simpl; try (by rewrite Z.mul_0_r).
  rewrite IH. fold (batch_from b c). unfold batch_from.
  rewrite <- fmap_app. f_equal.
  replace (b * Z.of_nat (S (length (sends (p_trace
    (produce_loop limit b fuel w' (c + b) (if raised o then s else s + 1)))))))
    with (b + b * Z.of_nat (length (sends (p_trace
    (produce_loop limit b fuel w' (c + b) (if raised o then s else s + 1))))))
    by lia.
  rewrite seqZ_app by lia. do 2 f_equal. lia.
Qed.

Lemma paced_pass (ms : list SendMessage) (id : Z) (o : result unit)
    (t : list event) :
  paced interval false (pass_events b ms id o ++ t) = paced interval false t.
Proof. destruct o as [[]|e]; reflexivity. Qed.

Lemma produce_loop_paced (fuel : nat) : ∀ (w : W) (c s : Z),
  paced interval false (p_trace (produce_loop limit b fuel w c s)) = true.
Proof.
  produce_cases fuel w c s IH; try done.
  rewrite paced_pass. apply IH.
Qed.

(** [produce_messages] adds two log lines around the loop. *)
Lemma produce_messages_with_sends (fuel : nat) (w : W) :
  sends (r_trace (produce_messages_with limit b fuel w)) =
  sends (p_trace (produce_loop limit b fuel w 0 0)).
Proof.
  unfold produce_messages_with.
  destruct (p_status (produce_loop limit b fuel w 0 0)); cbn [r_trace];
    rewrite sends_log, ?sends_app, ?sends_log, ?sends_nil, ?app_nil_r;
    reflexivity.
Qed.

Lemma produce_messages_with_status (fuel : nat) (w : W) :
  r_status (produce_messages_with limit b fuel w) =
  p_status (produce_loop limit b fuel w 0 0).
Proof.
  unfold produce_messages_with.
  by destruct (p_status (produce_loop limit b fuel w 0 0)).
Qed.

End Generic.

Global Instance payload_of_inj : Inj (=) (=) payload_of.
Proof.
  intros i j Hij. unfold payload_of in Hij. simpl in Hij.
  injection Hij as Hij. by apply (inj pretty).
Qed.

Lemma elem_of_batch_from (b c : Z) (m : SendMessage) :
  m ∈ batch_from b c ↔ ∃ i, m = Message (payload_of i) ∧ c < i ≤ c + b.
Proof.
  unfold batch_from. rewrite list_elem_of_fmap. split.
  - intros (i & -> & Hi). apply elem_of_seqZ in Hi. exists i. split; [done|lia].
  - intros (i & -> & Hi). exists i. split; [done|]. apply elem_of_seqZ. lia.
Qed.

Lemma length_batch_from (b c : Z) :
  0 ≤ b → Z.of_nat (length (batch_from b c)) = b.
Proof. intros Hb. unfold batch_from. rewrite length_fmap, length_seqZ. lia. Qed.

(** Batches at different positions share no message. *)
Lemma batches_disjoint (b : Z) (j k : nat) (m : SendMessage) :
  0 < b → m ∈ expected_batch b j → m ∈ expected_batch b k → j = k.
Proof.
  intros Hb. unfold expected_batch. rewrite !elem_of_batch_from.
  intros (i & -> & Hi) (i' & Heq & Hi').
  apply (f_equal send_payload) in Heq. cbn [send_payload] in Heq.
  apply (inj payload_of) in Heq. subst i'.
  destruct (decide (j < k)%nat); [nia|].
  destruct (decide (k < j)%nat); [nia|]. lia.
Qed.

(** *** The send calls of a run *)

(** C1, as amended.  For every batch size [b >= 1] and batch count [n >= 0]:
    the send call at position [k] (from 0) carries exactly the [b] messages
    "message-<id>" for [id = k*b+1 .. (k+1)*b], so that the identifiers of
    the whole run, read call after call, are [1, 2, 3, ...] without gap; the
    loop is bounded by the number of send calls that returned, not by the
    number of send calls: a run that finished made exactly [n] successful
    calls and one more call for each failed one; a run cut short by the
    budget used the whole budget; no exception leaves the loop; and when no
    send call fails, [n] iterations are enough and exactly [n] calls are
    issued. *)
Theorem produce_messages_batches {W : Type} `{!MessengerClient W}
    (n b : Z) (fuel : nat) (w : W) :
  0 < b → 0 ≤ n →
  let r := produce_messages_with n b fuel w in
  let calls := sends (r_trace r) in
  (∀ k ms o, calls !! k = Some (ms, o) →
     ms = expected_batch b k ∧ Z.of_nat (length ms) = b) ∧
  mjoin calls.*1 =
    (Message ∘ payload_of <$> seqZ 1 (b * Z.of_nat (length calls))) ∧
  (r_status r = Finished →
     Z.of_nat (successes calls) = n ∧
     length calls = (Z.to_nat n + failures calls)%nat) ∧
  (r_status r = OutOfFuel →
     length calls = fuel ∧ Z.of_nat (successes calls) < n) ∧
  (∀ e, r_status r ≠ Raised e) ∧
  (failures calls = 0%nat → (Z.to_nat n ≤ fuel)%nat →
     r_status r = Finished ∧ length calls = Z.to_nat n).
Proof.
  intros Hb Hn r calls. subst r calls.
  rewrite produce_messages_with_sends, produce_messages_with_status.
  pose proof (produce_loop_status n b Hb fuel w 0 0) as Hst. cbn zeta in Hst.
  pose proof (n_sent_successes n b Hb fuel w 0 0) as Hcount. cbn zeta in Hcount.
  pose proof (n_sent_bound n b Hb fuel w 0 0 Hn) as Hbound.
  pose proof (successes_failures
    (sends (p_trace (produce_loop n b fuel w 0 0)))) as Hsplit.
  split_and!.
  - intros k ms o Hk. apply (sends_lookup n b Hb) in Hk. subst ms.
    rewrite Z.add_0_l. split; [reflexivity|]. apply length_batch_from. lia.
  - apply (sends_joined n b Hb fuel w 0 0).
  - intros Hfin. destruct Hst as [[_ ?]|[Hout _]]; [lia|congruence].
  - intros Hout. destruct Hst as [[Hfin _]|(_ & ? & ?)]; [congruence|lia].
  - intros e He. destruct Hst as [[? _]|[? _]]; congruence.
  - intros Hnone Hfuel. destruct Hst as [[? ?]|(_ & ? & ?)]; [split; [done|lia]|lia].
Qed.

(** C1 holds at the defaults of the program on a broker that takes every
    batch, and the hypotheses of the amended statement are met there. *)
Lemma produce_messages_batches_witness :
  (0 < messages_per_batch ∧ 0 ≤ BATCHES_LIMIT) ∧
  let r := produce_messages 5 (Broker.provisioned [] []) in
  r_status r = Finished ∧ length (sends (r_trace r)) = Z.to_nat BATCHES_LIMIT.
Proof.
  split; [by vm_compute|].
  apply (produce_messages_batches BATCHES_LIMIT messages_per_batch 5
           (Broker.provisioned [] [])); [done|done|by vm_compute|by vm_compute].
Defined.

(** C1 as written fails: when the first send call raises, the run of the
    program with its own constants ([BATCHES_LIMIT = 5]) finishes after six
    send calls. *)
Lemma produce_messages_extra_send :
  let r := produce_messages 6 (Broker.provisioned [] [true]) in
  r_status r = Finished ∧
  length (sends (r_trace r)) = 6%nat ∧
  length (sends (r_trace r)) ≠ Z.to_nat BATCHES_LIMIT.
Proof. vm_compute. split_and!; [reflexivity|reflexivity|discriminate]. Qed.

(** C4.  When the send call at position [k] raises and the loop is allowed
    one more pass, the call at position [k + 1] is issued; it carries the
    identifiers [(k+1)*b + 1 .. (k+2)*b], which do not depend on any outcome;
    and no later call carries a message of the failed batch.  (Positions
    count from 0: position [k] is the claim's batch [k + 1].) *)
Theorem failed_batch_is_skipped {W : Type} `{!MessengerClient W}
    (n b : Z) (fuel : nat) (w : W) (k : nat) (ms : list SendMessage) (e : exn) :
  0 < b →
  let calls := sends (r_trace (produce_messages_with n b fuel w)) in
  calls !! k = Some (ms, Raise e) →
  (S k < fuel)%nat →
  ms = expected_batch b k ∧
  (∃ o, calls !! S k = Some (expected_batch b (S k), o)) ∧
  (∀ j ms' o m, (k < j)%nat → calls !! j = Some (ms', o) → m ∈ ms → m ∉ ms').
Proof.
  intros Hb calls Hk Hfuel. subst calls.
  rewrite produce_messages_with_sends in Hk |- *.
  pose proof (sends_lookup n b Hb _ _ _ _ _ _ _ Hk) as Hms.
  rewrite Z.add_0_l in Hms. fold (expected_batch b k) in Hms.
  split_and!; [done| |].
  - destruct (send_after_failure n b Hb _ _ _ _ _ _ _ Hk Hfuel) as [[ms' o] Hnext].
    exists o. rewrite Hnext. do 2 f_equal.
    apply (sends_lookup n b Hb) in Hnext. by rewrite Z.add_0_l in Hnext.
  - intros j ms' o m Hj Hlook Hin Hin'.
    apply (sends_lookup n b Hb) in Hlook. rewrite Z.add_0_l in Hlook.
    fold (expected_batch b j) in Hlook. subst ms ms'.
    pose proof (batches_disjoint b k j m Hb Hin Hin'). lia.
Qed.

Lemma failed_batch_is_skipped_witness :
  let calls := sends (r_trace (produce_messages_with 3 2 5
                                 (Broker.provisioned [] [false; true]))) in
  (0 < 2 ∧ (S 1 < 5)%nat) ∧
  ∃ o, calls !! 2%nat = Some (expected_batch 2 2, o).
Proof.
  split; [split; lia|].
  eapply (failed_batch_is_skipped 3 2 5 (Broker.provisioned [] [false; true]) 1);
    [lia|by vm_compute|lia].
Defined.

(** C10.  Whatever the number of passes made so far ([fuel] bounds it) and
    whatever the outcome of each send call, [current_id] is the batch size
    times the number of send calls issued; the payloads of all calls taken
    together are pairwise different; and a message occurs in one call only.
    The identifiers of a failed batch are therefore never used again. *)
Theorem identifiers_used_once {W : Type} `{!MessengerClient W}
    (n b : Z) (fuel : nat) (w : W) :
  0 < b →
  let r := produce_loop n b fuel w 0 0 in
  let calls := sends (p_trace r) in
  current_id r = b * Z.of_nat (length calls) ∧
  NoDup (send_payload <$> mjoin calls.*1) ∧
  (∀ j k ms ms' o o' m,
     calls !! j = Some (ms, o) → calls !! k = Some (ms', o') →
     m ∈ ms → m ∈ ms' → j = k).
Proof.
  intros Hb r calls. subst r calls. split_and!.
  - rewrite (current_id_sends n b Hb). lia.
  - rewrite (sends_joined n b Hb fuel w 0 0), <- list_fmap_compose.
    apply NoDup_fmap_2; [|apply NoDup_seqZ].
    intros i j Hij. by apply (inj payload_of).
  - intros j k ms ms' o o' m Hj Hk Hin Hin'.
    apply (sends_lookup n b Hb) in Hj, Hk. rewrite Z.add_0_l in Hj, Hk.
    subst ms ms'. by apply (batches_disjoint b j k m).
Qed.

Lemma identifiers_used_once_witness :
  0 < 10 ∧
  current_id (produce_loop 5 10 3 (Broker.provisioned [] [true; false; true]) 0 0)
  = 10 * 3.
Proof.
  split; [lia|].
  pose proof (identifiers_used_once 5 10 3
                (Broker.provisioned [] [true; false; true])) as Hrun.
  cbn zeta in Hrun. destruct Hrun as [Hid _]; [lia|].
  rewrite Hid. by vm_compute.
Defined.

(** *** Provisioning errors *)

Lemma init_system_trace {W : Type} `{!MessengerClient W} (w : W) :
  r_trace (init_system w) =
  (ensure_stream w).2 ++ (ensure_topic (ensure_stream w).1).2 ∧
  r_world (init_system w) = (ensure_topic (ensure_stream w).1).1 ∧
  r_status (init_system w) = Finished.
Proof.
  unfold init_system. destruct (ensure_stream w) as [w1 t1]. simpl.
  by destruct (ensure_topic w1) as [w2 t2].
Qed.

(** C3, as amended.  [init_system] always returns; every client call of it
    that raises is followed by an ERROR log line and by the logged exception;
    and once [connect] and [login_user] have returned, [main] runs
    [produce_messages] on whatever [init_system] left behind, whether
    provisioning failed or not: with a positive limit, batch size and budget
    the loop issues a send call. *)
Theorem init_system_swallows_errors {W : Type} `{!MessengerClient W}
    (n b : Z) (fuel : nat) (w0 w1 w : W) :
  connect w0 = (Return (), w1) →
  login_user "messenger" "messenger" w1 = (Return (), w) →
  let r := init_system w in
  let p := produce_messages_with n b fuel (r_world r) in
  let m := main_with n b fuel w0 in
  r_status r = Finished ∧
  (∀ i req e, r_trace r !! i = Some (Invoke req (Raise e)) →
     ∃ line, r_trace r !! S i = Some (Log ERROR line) ∧
             r_trace r !! S (S i) = Some (LogException (exn_msg e))) ∧
  (∃ pre, r_trace m = pre ++ r_trace r ++ r_trace p) ∧
  r_status m = r_status p ∧
  (0 < n → 0 < b → (0 < fuel)%nat → sends (r_trace p) ≠ []).
Proof.
  intros Hconnect Hlogin r p m. subst r p m. split_and!.
  - apply init_system_trace.
  - destruct (init_system_trace w) as (-> & _ & _).
    unfold ensure_stream, ensure_topic.
    destruct (get_stream STREAM_NAME w) as [[[sd|]|e1] w2];
      [|destruct (create_stream STREAM_NAME STREAM_ID w2) as [[[]|e2] w3]|];
      cbn [fst snd];
      (destruct (get_topic STREAM_NAME TOPIC_NAME _) as [[[td|]|e3] w4];
       [|destruct (create_topic STREAM_NAME 1 TOPIC_NAME 1 w4) as [[[]|e4] w5]|]);
      intros i req e Hi;
      do 11 (try (destruct i as [|i]; simpl in Hi; simplify_eq; eauto)).
  - unfold main_with. rewrite Hconnect, Hlogin. cbn [r_trace].
    eexists. reflexivity.
  - unfold main_with. by rewrite Hconnect, Hlogin.
  - intros Hn Hb Hfuel. rewrite produce_messages_with_sends.
    destruct fuel as [|fuel]; [lia|].
    destruct (produce_loop_step n b Hb fuel (r_world (init_system w)) 0 0 Hn)
      as (o & w' & _ & Htr & _).
    cbn zeta in Htr. rewrite Htr, sends_app, sends_pass_events. done.
Qed.

Lemma init_system_swallows_errors_witness :
  let w0 := Broker.provisioned [] [false; false; true] in
  let w1 := Broker.provisioned [] [false; true] in
  let w := Broker.provisioned [] [true] in
  (connect w0 = (Return (), w1) ∧
   login_user "messenger" "messenger" w1 = (Return (), w)) ∧
  r_status (main 5 w0) = r_status (produce_messages 5 (r_world (init_system w))).
Proof.
  split; [by vm_compute|].
  eapply (init_system_swallows_errors BATCHES_LIMIT messages_per_batch 5
            (Broker.provisioned [] [false; false; true])
            (Broker.provisioned [] [false; true])
            (Broker.provisioned [] [true]));
    by vm_compute.
Defined.

(** C3 as written fails.  The lookup of the stream raises (a transport
    failure on the third call, after [connect] and [login_user]); the error
    is logged, and [main] goes on to run the producer loop, which sends its
    five batches. *)
Lemma main_produces_after_topology_error :
  let r := main 5 (Broker.provisioned [] [false; false; true]) in
  r_trace r !! 6%nat =
    Some (Invoke (GetStream STREAM_NAME) (Raise Broker.transport_error)) ∧
  r_trace r !! 7%nat = Some (Log ERROR "Error creating stream: transport failure") ∧
  r_status r = Finished ∧
  length (sends (r_trace r)) = 5%nat.
Proof. by vm_compute. Qed.

End ProducerFacts.

(** ** The consumer loop *)

Lemma polls_logs (t t' : list event) :
  forallb is_log t = true → polls (t ++ t') = polls t'.
Proof.
  induction t as [|[] t IH]; simpl; try done.
Qed.

Lemma paced_logs (pause : Q) (waiting : bool) (t t' : list event) :
  forallb is_log t = true → paced pause waiting (t ++ t') = paced pause waiting t'.
Proof. induction t as [|[] t IH]; simpl; try done. Qed.

Lemma sleeps_logs (t : list event) :
  forallb is_log t = true → filter (λ e, is_sleep e = true) t = [].
Proof.
  induction t as [|[] t IH]; simpl; try done.
Qed.

Lemma total_polled_app (t t' : list event) :
  total_polled (t ++ t') = total_polled t + total_polled t'.
Proof.
  unfold total_polled. rewrite polls_app.
  induction (polls t) as [|r l IH]; simpl; lia.
Qed.

Lemma nonempty_polls_app (t t' : list event) :
  nonempty_polls (t ++ t') = (nonempty_polls t + nonempty_polls t')%nat.
Proof. unfold nonempty_polls. by rewrite polls_app, filter_app, length_app. Qed.

Module ConsumerFacts.
Import Consumer.

Section Generic.
Context {W : Type} `{!IggyClient W}.
Variable decode : string → result string.
Variable limit : Z.
Variable b : Z.

Lemma handle_each_logs (ms : list ReceiveMessage) :
  forallb is_log (handle_each decode ms).1 = true.
Proof.
  induction ms as [|m ms IH]; [done|].
  cbn [handle_each]. unfold handle_message.
  destruct (decode (payload m)); [|done].
  by destruct (handle_each decode ms).
Qed.

Lemma handle_each_only_logs (ms : list ReceiveMessage) t r :
  handle_each decode ms = (t, r) → forallb is_log t = true.
Proof. intros Hh. pose proof (handle_each_logs ms) as Hl. by rewrite Hh in Hl. Qed.

Lemma consume_body_pass (w : W) (off cnt : Z) :
  pass decode b w off cnt (consume_body decode b w off cnt).1 (consume_body decode b w off cnt).2.
Proof.
  unfold consume_body.
  destruct (poll_messages STREAM_NAME TOPIC_NAME PARTITION_ID Next b true w)
    as [[[|m ms]|e] w'] eqn:Hpoll.
  - by apply pass_empty.
  - destruct (handle_each decode (m :: ms)) as [t [e|]] eqn:Hh; cbn [fst snd].
    + by eapply pass_handler_raise.
    + by eapply pass_handled.
  - by apply pass_raise.
Qed.

Lemma total_polled_logs (t : list event) :
  forallb is_log t = true → total_polled t = 0.
Proof.
  intros Ht. pose proof (polls_logs t [] Ht) as Hp. rewrite app_nil_r in Hp.
  unfold total_polled. by rewrite Hp.
Qed.

Lemma nonempty_polls_logs (t : list event) :
  forallb is_log t = true → nonempty_polls t = 0%nat.
Proof.
  intros Ht. pose proof (polls_logs t [] Ht) as Hp. rewrite app_nil_r in Hp.
  unfold nonempty_polls. by rewrite Hp.
Qed.

(** What one pass contributes to the readings of a trace. *)
Lemma pass_offset w off cnt t st :
  pass decode b w off cnt t st → step_offset st = off + total_polled t.
Proof.
  destruct 1 as [?????|????|????? t ? _ _ Hh|????? t _ _ Hh]; cbn [step_offset];
    try (unfold total_polled, polls; simpl; lia).
  all: rewrite (total_polled_app [_; _]), total_polled_app.
  all: rewrite (total_polled_logs t) by (eapply handle_each_only_logs; eassumption).
  all: unfold total_polled, polls; simpl; lia.
Qed.

Lemma pass_polls w off cnt t st :
  pass decode b w off cnt t st →
  ∃ r, polls t = [r] ∧
       match st with
       | Continue _ _ n => n = cnt + (if nonempty_poll r then 1 else 0) ∧ raised r = false
       | Break e _ _ n => n = cnt ∧ (r = Raise e ∨ nonempty_poll r = true)
       end.
Proof.
  destruct 1 as [?????|????|??? ms ??? _ Hne Hh|??? ms ?? _ Hne Hh].
  - eexists. split; [reflexivity|]. auto.
  - eexists. split; [reflexivity|]. simpl. split; [lia|done].
  - eexists. split.
    + rewrite (polls_app [_; _]), polls_logs
        by (eapply handle_each_only_logs; eassumption). reflexivity.
    + split; [done|]. right. by destruct ms.
  - eexists. split.
    + rewrite (polls_app [_; _]), polls_logs
        by (eapply handle_each_only_logs; eassumption). reflexivity.
    + destruct ms; [done|]. simpl. done.
Qed.

Lemma pass_paced w off cnt t st (rest : list event) :
  pass decode b w off cnt t st →
  paced interval false (t ++ rest) =
  match st with
  | Continue _ _ _ => paced interval false rest
  | Break _ _ _ _ => paced interval true rest
  end.
Proof.
  destruct 1 as [?????|????|??????? _ _ Hh|?????? _ _ Hh]; try reflexivity.
  all: rewrite <- !app_assoc; simpl;
    rewrite paced_logs by (eapply handle_each_only_logs; eassumption); reflexivity.
Qed.

Lemma pass_sleeps w off cnt t st :
  pass decode b w off cnt t st →
  match st with
  | Continue _ _ _ => last t = Some (Sleep interval)
  | Break _ _ _ _ => filter (λ e, is_sleep e = true) t = []
  end.
Proof.
  destruct 1 as [?????|????|????? t ? _ _ Hh|????? t _ _ Hh]; try reflexivity.
  - rewrite !filter_app, (sleeps_logs t)
      by (eapply handle_each_only_logs; eassumption).
    reflexivity.
  - by rewrite app_assoc, last_snoc.
Qed.

Lemma consume_loop_unfold (fuel : nat) (w : W) (off cnt : Z) :
  cnt < limit →
  consume_loop decode limit b (S fuel) w off cnt =
  match consume_body decode b w off cnt with
  | (t, Break error w' off' n') => Consumed Finished (Some error) w' off' n' t
  | (t, Continue w' off' n') =>
      let r := consume_loop decode limit b fuel w' off' n' in
      Consumed (c_status r) (c_fatal r) (c_world r) (c_offset r)
        (n_consumed_batches r) (t ++ c_trace r)
  end.
Proof.
  intros Hc. cbn [consume_loop]. destruct (decide (cnt < limit)); [done|lia].
Qed.

Lemma consume_loop_stop (fuel : nat) (w : W) (off cnt : Z) :
  limit ≤ cnt →
  consume_loop decode limit b fuel w off cnt = Consumed Finished None w off cnt [].
Proof.
  intros Hc. destruct fuel; cbn [consume_loop];
    destruct (decide (cnt < limit)); (lia || reflexivity).
Qed.

Lemma consume_loop_starved (w : W) (off cnt : Z) :
  cnt < limit →
  consume_loop decode limit b 0 w off cnt = Consumed OutOfFuel None w off cnt [].
Proof.
  intros Hc. cbn [consume_loop]. destruct (decide (cnt < limit)); (lia || reflexivity).
Qed.

(** Case analysis shared by the inductions on the consumer loop. *)
Ltac consume_cases fuel w off cnt IH :=
  induction fuel as [|fuel IH]; intros w off cnt; cbn zeta; try cbn zeta in IH;
  destruct (decide (cnt < limit)) as [Hc|Hc];
  [ rewrite (consume_loop_starved w off cnt Hc)
  | rewrite (consume_loop_stop 0 w off cnt) by lia
  | rewrite (consume_loop_unfold fuel w off cnt Hc);
    let Hp := fresh "Hp" in
    pose proof (consume_body_pass w off cnt) as Hp;
    destruct (consume_body decode b w off cnt) as [t [w' off' cnt'|e w' off' cnt']];
    cbn [fst snd] in Hp; cbn zeta
  | rewrite (consume_loop_stop (S fuel) w off cnt) by lia ];
  cbn [c_trace c_status c_fatal c_world c_offset n_consumed_batches].

Lemma consume_loop_offset (fuel : nat) : ∀ (w : W) (off cnt : Z),
  let r := consume_loop decode limit b fuel w off cnt in
  c_offset r = off + total_polled (c_trace r).
Proof.
  consume_cases fuel w off cnt IH; try (unfold total_polled, polls; simpl; lia).
  - apply pass_offset in Hp. cbn [step_offset] in Hp.
    rewrite IH, total_polled_app. lia.
  - apply pass_offset in Hp. cbn [step_offset] in Hp. lia.
Qed.

Lemma consume_loop_fatal (fuel : nat) : ∀ (w : W) (off cnt : Z) (i : nat) (err : exn),
  let r := consume_loop decode limit b fuel w off cnt in
  polls (c_trace r) !! i = Some (Raise err) →
  S i = length (polls (c_trace r)) ∧ c_fatal r = Some err.
Proof.
  consume_cases fuel w off cnt IH; intros i err Hi; try done.
  - apply pass_polls in Hp as (r & Hr & _ & Hok).
    rewrite polls_app, Hr in Hi |- *. destruct i as [|i]; simpl in Hi.
    + injection Hi as ->. done.
    + apply IH in Hi as [Hlen ->]. simpl. by rewrite <- Hlen.
  - apply pass_polls in Hp as (r & Hr & _ & Hcase). rewrite Hr in Hi |- *.
    destruct i as [|i]; simpl in Hi; [|done]. injection Hi as ->.
    destruct Hcase as [Heq|?]; [|done]. by injection Heq as ->.
Qed.

Lemma consume_loop_status (fuel : nat) : ∀ (w : W) (off cnt : Z),
  let r := consume_loop decode limit b fuel w off cnt in
  c_status r = Finished ∧
    (c_fatal r = None ∧ limit ≤ n_consumed_batches r ∨ is_Some (c_fatal r)) ∨
  c_status r = OutOfFuel ∧ c_fatal r = None ∧ n_consumed_batches r < limit ∧
    length (polls (c_trace r)) = fuel.
Proof.
  consume_cases fuel w off cnt IH; try (by left; split; [|left; split; [|lia]]);
    try (by right).
  - apply pass_polls in Hp as (r & Hr & _). rewrite polls_app, Hr.
    destruct (IH w' off' cnt') as [?|(?&?&?&?)]; [by left|right].
    split_and!; try done. simpl. by f_equal.
  - left. split; [done|]. right. by eexists.
Qed.

Lemma consume_loop_bound (fuel : nat) : ∀ (w : W) (off cnt : Z),
  cnt ≤ limit →
  n_consumed_batches (consume_loop decode limit b fuel w off cnt) ≤ limit.
Proof.
  consume_cases fuel w off cnt IH; intros Hle; try done.
  - apply pass_polls in Hp as (r & _ & -> & _). apply IH.
    destruct (nonempty_poll r); lia.
  - apply pass_polls in Hp as (r & _ & -> & _). done.
Qed.

Lemma consume_loop_count (fuel : nat) : ∀ (w : W) (off cnt : Z),
  let r := consume_loop decode limit b fuel w off cnt in
  n_consumed_batches r ≤ cnt + Z.of_nat (nonempty_polls (c_trace r)) ∧
  (c_fatal r = None →
   n_consumed_batches r = cnt + Z.of_nat (nonempty_polls (c_trace r))).
Proof.
  consume_cases fuel w off cnt IH; try (by unfold nonempty_polls, polls; simpl; lia).
  - apply pass_polls in Hp as (r & Hr & -> & _).
    destruct (IH w' off' (cnt + (if nonempty_poll r then 1 else 0))) as [Hle Heq].
    rewrite nonempty_polls_app.
    assert (nonempty_polls t = if nonempty_poll r then 1%nat else 0%nat) as ->.
    { unfold nonempty_polls. rewrite Hr, filter_cons. simpl.
      destruct (nonempty_poll r); case_decide; simpl; congruence. }
    split; [|intros Hnone; specialize (Heq Hnone)];
      destruct (nonempty_poll r); lia.
  - apply pass_polls in Hp as (r & Hr & -> & _). split; [lia|done].
Qed.

Lemma consume_loop_paced (fuel : nat) : ∀ (w : W) (off cnt : Z),
  paced interval false (c_trace (consume_loop decode limit b fuel w off cnt)) = true.
Proof.
  consume_cases fuel w off cnt IH; try done.
  - rewrite (pass_paced _ _ _ _ _ _ Hp). apply IH.
  - rewrite <- (app_nil_r t), (pass_paced _ _ _ _ _ _ Hp). reflexivity.
Qed.

End Generic.
(** *** The cursor *)

(** C2.  The consumer always polls with [auto_commit=True].  When the poll
    of a pass returns a non-empty sequence, [offset] has grown by exactly the
    number of messages returned at the end of that pass; when it returns an
    empty sequence, [offset] is unchanged.  Over a whole run from [offset =
    0], [offset] is the sum of the lengths of the sequences the polls
    returned. *)
Theorem cursor_advances_by_polled_count {W : Type} `{!IggyClient W}
    (decode : string → result string) (n b : Z) (fuel : nat) (w w' w0 : W)
    (off cnt : Z) (ms : list ReceiveMessage) :
  poll_messages STREAM_NAME TOPIC_NAME PARTITION_ID Next b true w = (Return ms, w') →
  let next := (consume_body decode b w off cnt).2 in
  let r := consume_loop decode n b fuel w0 0 0 in
  (ms ≠ [] → step_offset next = off + Z.of_nat (length ms)) ∧
  (ms = [] → step_offset next = off) ∧
  c_offset r = total_polled (c_trace r).
Proof.
  intros Hpoll next r. subst next r.
  pose proof (consume_body_pass decode b w off cnt) as Hp.
  destruct (consume_body decode b w off cnt) as [t st]. cbn [fst snd] in *.
  split_and!.
  - intros Hne. inversion Hp; subst; cbn [step_offset]; congruence.
  - intros ->. inversion Hp; subst; cbn [step_offset]; congruence.
  - rewrite (consume_loop_offset decode n b fuel w0 0 0). lia.
Qed.

Lemma cursor_advances_by_polled_count_witness :
  let w := Broker.provisioned ["message-1"; "message-2"] [] in
  let ms := [ {| offset := 0; payload := "message-1" |};
              {| offset := 1; payload := "message-2" |} ] in
  let polled := poll_messages STREAM_NAME TOPIC_NAME PARTITION_ID Next 10 true w in
  polled = (Return ms, polled.2) ∧
  step_offset (consume_body decode_ascii 10 w 0 0).2 = 0 + 2.
Proof.
  split; [by vm_compute|].
  pose proof (cursor_advances_by_polled_count decode_ascii 5 10 0
    (Broker.provisioned ["message-1"; "message-2"] [])
    (poll_messages STREAM_NAME TOPIC_NAME PARTITION_ID Next 10 true
       (Broker.provisioned ["message-1"; "message-2"] [])).2
    Broker.empty 0 0
    [ {| offset := 0; payload := "message-1" |};
      {| offset := 1; payload := "message-2" |} ]) as Hrun.
  cbn zeta in Hrun. destruct Hrun as [Hgrow _]; [by vm_compute|].
  by apply Hgrow.
Defined.

(** *** Poll failures *)

(** C5.  When [poll_messages] raises, the pass logs the exception and the
    loop stops there: the result of the loop is the state before the pass
    ([offset] and [n_consumed_batches] untouched) with these three events, no
    pause and no further poll.  In any run a poll that raised is the last
    poll of the trace, the loop has stopped on it, and [consume_messages]
    still logs its closing line and returns. *)
Theorem poll_failure_is_fatal {W : Type} `{!IggyClient W}
    (decode : string → result string) (n b : Z) (fuel : nat) (w w' w0 : W)
    (off cnt : Z) (e : exn) :
  cnt < n →
  poll_messages STREAM_NAME TOPIC_NAME PARTITION_ID Next b true w = (Raise e, w') →
  consume_loop decode n b (S fuel) w off cnt =
    Consumed Finished (Some e) w' off cnt
      [Log DEBUG "Polling for messages..."; Invoke (poll_request b) (Raise e);
       LogException (fatal_line e)] ∧
  (∀ fuel0 i e0,
     let r := consume_loop decode n b fuel0 w0 0 0 in
     polls (c_trace r) !! i = Some (Raise e0) →
     S i = length (polls (c_trace r)) ∧ c_fatal r = Some e0 ∧
     c_status r = Finished ∧
     r_status (consume_messages_with decode n b fuel0 w0) = Finished ∧
     last (r_trace (consume_messages_with decode n b fuel0 w0)) =
       Some (Log INFO (closing_line (n_consumed_batches r)))).
Proof.
  intros Hcnt Hpoll. split.
  - rewrite (consume_loop_unfold decode n b fuel w off cnt Hcnt).
    unfold consume_body. by rewrite Hpoll.
  - intros fuel0 i e0 r Hi. subst r.
    destruct (consume_loop_fatal decode n b fuel0 w0 0 0 i e0 Hi) as [Hlen Hfatal].
    assert (c_status (consume_loop decode n b fuel0 w0 0 0) = Finished) as Hfin.
    { destruct (consume_loop_status decode n b fuel0 w0 0 0) as [[? _]|(_ & ? & _)];
        [done|congruence]. }
    split_and!; try done; unfold consume_messages_with; rewrite Hfin; [done|].
    cbn [r_trace]. by rewrite app_comm_cons, last_snoc.
Qed.

Lemma poll_failure_is_fatal_witness :
  let w := Broker.provisioned ["message-1"] [true] in
  (0 < 5 ∧
   poll_messages STREAM_NAME TOPIC_NAME PARTITION_ID Next 10 true w =
     (Raise Broker.transport_error, Broker.provisioned ["message-1"] [])) ∧
  n_consumed_batches (consume_loop decode_ascii 5 10 4 w 0 0) = 0.
Proof.
  split; [by vm_compute|].
  pose proof (poll_failure_is_fatal decode_ascii 5 10 3
                (Broker.provisioned ["message-1"] [true])
                (Broker.provisioned ["message-1"] []) Broker.empty 0 0
                Broker.transport_error) as [Hrun _]; [lia|by vm_compute|].
  by rewrite Hrun.
Defined.

(** *** Empty polls *)

(** C7.  A pass whose poll returns the empty sequence logs "No messages
    found", pauses and goes on to the next pass with [offset] and
    [n_consumed_batches] unchanged; nothing is logged as an error.  The loop
    as a whole stops only when [n_consumed_batches] has reached the limit or
    an exception has reached the [except] clause; as long as neither
    happened it polls once per pass; and [n_consumed_batches] counts the
    polls that returned a non-empty sequence (all of them when no exception
    occurred). *)
Theorem empty_poll_is_not_an_error {W : Type} `{!IggyClient W}
    (decode : string → result string) (n b : Z) (fuel : nat) (w w' w0 : W)
    (off cnt : Z) :
  poll_messages STREAM_NAME TOPIC_NAME PARTITION_ID Next b true w = (Return [], w') →
  0 ≤ n →
  let quiet :=
    [Log DEBUG "Polling for messages...";
     Invoke (poll_request b) (Return (Polled []));
     Log INFO "No messages found in current poll"; Sleep interval] in
  let r := consume_loop decode n b fuel w0 0 0 in
  consume_body decode b w off cnt = (quiet, Continue w' off cnt) ∧
  (cnt < n →
   let r1 := consume_loop decode n b (S fuel) w off cnt in
   let r2 := consume_loop decode n b fuel w' off cnt in
   c_trace r1 = quiet ++ c_trace r2 ∧ c_status r1 = c_status r2 ∧
   c_fatal r1 = c_fatal r2 ∧ c_offset r1 = c_offset r2 ∧
   n_consumed_batches r1 = n_consumed_batches r2) ∧
  (c_status r = Finished ∧
     (c_fatal r = None ∧ n_consumed_batches r = n ∨ is_Some (c_fatal r)) ∨
   c_status r = OutOfFuel ∧ c_fatal r = None ∧ n_consumed_batches r < n ∧
     length (polls (c_trace r)) = fuel) ∧
  n_consumed_batches r ≤ Z.of_nat (nonempty_polls (c_trace r)) ∧
  (c_fatal r = None →
   n_consumed_batches r = Z.of_nat (nonempty_polls (c_trace r))).
Proof.
  intros Hpoll Hn quiet r. subst quiet r.
  assert (consume_body decode b w off cnt =
          ([Log DEBUG "Polling for messages...";
            Invoke (poll_request b) (Return (Polled []));
            Log INFO "No messages found in current poll"; Sleep interval],
           Continue w' off cnt)) as Hbody.
  { unfold consume_body. by rewrite Hpoll. }
  split_and!.
  - done.
  - intros Hcnt. rewrite (consume_loop_unfold decode n b fuel w off cnt Hcnt), Hbody.
    done.
  - pose proof (consume_loop_bound decode n b fuel w0 0 0 Hn).
    destruct (consume_loop_status decode n b fuel w0 0 0) as [[? [[? ?]|?]]|?];
      [left; split; [done|left; split; [done|lia]]|left; auto|right; auto].
  - destruct (consume_loop_count decode n b fuel w0 0 0) as [Hle _]. lia.
  - intros Hnone. destruct (consume_loop_count decode n b fuel w0 0 0) as [_ Heq].
    rewrite Heq by done. lia.
Qed.

Lemma empty_poll_is_not_an_error_witness :
  let w := Broker.provisioned [] [] in
  (poll_messages STREAM_NAME TOPIC_NAME PARTITION_ID Next 10 true w = (Return [], w) ∧
   0 ≤ 5) ∧
  (consume_body decode_ascii 10 w 7 2).2 = Continue w 7 2.
Proof.
  split; [by vm_compute|].
  pose proof (empty_poll_is_not_an_error decode_ascii 5 10 0
                (Broker.provisioned [] []) (Broker.provisioned [] [])
                Broker.empty 7 2) as Hquiet.
  cbn zeta in Hquiet. destruct Hquiet as [Hbody _]; [by vm_compute|lia|].
  by rewrite Hbody.
Defined.

End ConsumerFacts.

(** ** Provisioning against the broker *)

Module BrokerFacts.
Import Producer.

(** [ensure_stream] on a broker whose transport does not fail. *)
Lemma ensure_stream_reliable st tp lg cu :
  ensure_stream (Broker.Make st tp lg cu []) =
  match st !! STREAM_NAME with
  | Some sid =>
      (Broker.Make st tp lg cu [],
       [stream_start; found_stream sid; stream_exists_line sid])
  | None =>
      if decide (STREAM_ID ∈ (map_img st : gset Z)) then
        (Broker.Make st tp lg cu [],
         [stream_start; Invoke (GetStream STREAM_NAME) (Return (AStream None));
          Invoke (CreateStream STREAM_NAME STREAM_ID) (Raise Broker.already_exists);
          Log ERROR ("Error creating stream: " +:+ exn_msg Broker.already_exists);
          LogException (exn_msg Broker.already_exists)])
      else
        (Broker.Make (<[STREAM_NAME := STREAM_ID]> st) tp lg cu [],
         [stream_start; Invoke (GetStream STREAM_NAME) (Return (AStream None));
          Invoke (CreateStream STREAM_NAME STREAM_ID) (Return NoValue);
          Log INFO "Stream was created successfully."])
  end.
Proof.
  unfold ensure_stream.
  cbv [get_stream create_stream Broker.messenger_client Broker.get_stream
       Broker.create_stream Broker.over_transport Broker.faults Broker.streams].
  destruct (st !! STREAM_NAME) as [sid|] eqn:Hst; [reflexivity|].
  cbn [fmap option_fmap option_map].
  destruct (decide (STREAM_ID ∈ (map_img st : gset Z))) as [Hin|Hout];
    case_decide as Hd; try reflexivity.
  - exfalso. apply Hd. by right.
  - exfalso. destruct Hd as [[? ?]|?]; done.
Qed.

(** [ensure_topic] on a broker whose transport does not fail. *)
Lemma ensure_topic_reliable st tp lg cu :
  ensure_topic (Broker.Make st tp lg cu []) =
  match tp !! (STREAM_NAME, TOPIC_NAME) with
  | Some tid =>
      (Broker.Make st tp lg cu [],
       [topic_start; found_topic tid; topic_exists_line tid])
  | None =>
      match st !! STREAM_NAME with
      | None =>
          (Broker.Make st tp lg cu [],
           [topic_start;
            Invoke (GetTopic STREAM_NAME TOPIC_NAME) (Return (ATopic None));
            Invoke (CreateTopic STREAM_NAME 1 TOPIC_NAME 1) (Raise Broker.not_found);
            Log ERROR ("Error creating topic " +:+ exn_msg Broker.not_found);
            LogException (exn_msg Broker.not_found)])
      | Some _ =>
          (with_topic st tp lg cu,
           [topic_start;
            Invoke (GetTopic STREAM_NAME TOPIC_NAME) (Return (ATopic None));
            Invoke (CreateTopic STREAM_NAME 1 TOPIC_NAME 1) (Return NoValue);
            Log INFO "Topic was created successfully."])
      end
  end.
Proof.
  unfold ensure_topic, with_topic.
  cbv [get_topic create_topic Broker.messenger_client Broker.get_topic
       Broker.create_topic Broker.over_transport Broker.faults Broker.streams
       Broker.topics].
  destruct (tp !! (STREAM_NAME, TOPIC_NAME)) as [tid|] eqn:Htp; [reflexivity|].
  cbn [fmap option_fmap option_map].
  destruct (st !! STREAM_NAME) as [sid|] eqn:Hst; reflexivity.
Qed.

(** A second provisioning only looks up. *)
Lemma init_system_provisioned st tp lg cu sid tid :
  st !! STREAM_NAME = Some sid →
  tp !! (STREAM_NAME, TOPIC_NAME) = Some tid →
  init_system (Broker.Make st tp lg cu []) =
  Run Finished (Broker.Make st tp lg cu [])
    [stream_start; found_stream sid; stream_exists_line sid;
     topic_start; found_topic tid; topic_exists_line tid].
Proof.
  intros Hst Htp. unfold init_system.
  rewrite ensure_stream_reliable, Hst, ensure_topic_reliable, Htp. reflexivity.
Qed.

(** A first provisioning that logs no error leaves both the stream and the
    topic behind, and creates exactly what was missing. *)
Lemma first_init_system st tp lg cu :
  let r := init_system (Broker.Make st tp lg cu []) in
  filter (λ e, is_error_log e = true) (r_trace r) = [] →
  ∃ st' tp' lg' sid tid,
    r_world r = Broker.Make st' tp' lg' cu [] ∧
    st' !! STREAM_NAME = Some sid ∧
    tp' !! (STREAM_NAME, TOPIC_NAME) = Some tid ∧
    filter (λ e, is_create_stream e = true) (r_trace r) =
      match st !! STREAM_NAME with
      | Some _ => []
      | None => [Invoke (CreateStream STREAM_NAME STREAM_ID) (Return NoValue)]
      end ∧
    filter (λ e, is_create_topic e = true) (r_trace r) =
      match tp !! (STREAM_NAME, TOPIC_NAME) with
      | Some _ => []
      | None => [Invoke (CreateTopic STREAM_NAME 1 TOPIC_NAME 1) (Return NoValue)]
      end.
Proof.
  cbn zeta. unfold init_system. rewrite ensure_stream_reliable.
  destruct (st !! STREAM_NAME) as [sid|] eqn:Hst;
    [|destruct (decide (STREAM_ID ∈ (map_img st : gset Z))) as [Hin|Hout]];
    rewrite ensure_topic_reliable;
    rewrite ?lookup_insert_eq, ?Hst;
    destruct (tp !! (STREAM_NAME, TOPIC_NAME)) as [tid|] eqn:Htp;
    cbn [r_trace r_world r_status]; intros Herr; try discriminate Herr;
    try unfold with_topic;
    eexists _, _, _, _, _;
    (split; [reflexivity|]);
    (split; [first [eassumption|apply lookup_insert_eq]|]);
    (split; [first [eassumption|apply lookup_insert_eq]|]);
    split; reflexivity.
Qed.

(** C6.  On a broker whose transport does not fail, when a first
    [init_system] went through without logging an error, a second one finds
    the stream and the topic, issues no create call, logs the two "already
    exists" warnings and no error, returns, and leaves the broker as it was.
    If the stream (the topic) was absent at the start, the two runs together
    issue exactly one [create_stream] (one [create_topic]) call, and it
    succeeded. *)
Theorem init_system_twice (σ : Broker.t) :
  Broker.faults σ = [] →
  let r1 := init_system σ in
  let r2 := init_system (r_world r1) in
  filter (λ e, is_error_log e = true) (r_trace r1) = [] →
  r_status r2 = Finished ∧
  r_world r2 = r_world r1 ∧
  (∃ sid tid,
     r_trace r2 =
     [stream_start; found_stream sid; stream_exists_line sid;
      topic_start; found_topic tid; topic_exists_line tid]) ∧
  filter (λ e, is_create e = true) (r_trace r2) = [] ∧
  filter (λ e, is_error_log e = true) (r_trace r2) = [] ∧
  (Broker.streams σ !! STREAM_NAME = None →
   filter (λ e, is_create_stream e = true) (r_trace r1 ++ r_trace r2) =
   [Invoke (CreateStream STREAM_NAME STREAM_ID) (Return NoValue)]) ∧
  (Broker.topics σ !! (STREAM_NAME, TOPIC_NAME) = None →
   filter (λ e, is_create_topic e = true) (r_trace r1 ++ r_trace r2) =
   [Invoke (CreateTopic STREAM_NAME 1 TOPIC_NAME 1) (Return NoValue)]).
Proof.
  destruct σ as [st tp lg cu fl]. cbn [Broker.faults Broker.streams Broker.topics].
  intros ->. cbn zeta. intros Herr.
  destruct (first_init_system st tp lg cu Herr)
    as (st' & tp' & lg' & sid & tid & Hw & Hst' & Htp' & Hcs & Hct).
  rewrite Hw, (init_system_provisioned st' tp' lg' cu sid tid Hst' Htp').
  cbn [r_trace r_world r_status]. rewrite !filter_app, Hcs, Hct.
  split_and!; try done.
  - by exists sid, tid.
  - by intros ->.
  - by intros ->.
Qed.

Lemma init_system_twice_witness :
  (Broker.faults Broker.empty = [] ∧
   filter (λ e, is_error_log e = true) (r_trace (init_system Broker.empty)) = []) ∧
  r_world (init_system (r_world (init_system Broker.empty))) =
  r_world (init_system Broker.empty).
Proof.
  split; [by vm_compute|].
  apply (init_system_twice Broker.empty); by vm_compute.
Defined.

End BrokerFacts.

(** ** The two loops together *)

Module LoopFacts.

Lemma handle_each_in_order (decode : string → result string)
    (polled : list ReceiveMessage) (texts : list string) :
  Forall2 (λ m text, decode (payload m) = Return text) polled texts →
  Consumer.handle_each decode polled =
  (zip_with (λ m text, Log INFO (Consumer.handled_line m text)) polled texts,
   None).
Proof.
  induction 1 as [|m text polled texts Hm _ IH]; [reflexivity|].
  cbn [Consumer.handle_each zip_with]. unfold Consumer.handle_message.
  by rewrite Hm, IH.
Qed.

(** C9, as amended.  Every pass of the producer loop ends with a pause of
    [interval], whether its send call returned or raised.  A pass of the
    consumer loop that goes on to another pass (the poll returned, empty or
    not, and every message was handled) ends with a pause of [interval]; a
    pass that ends the loop (the poll or a handler raised) contains no pause.
    In the traces of both loops, every pause lasts [interval] and between
    two consecutive send or poll requests there is a pause. *)
Theorem pause_between_requests {W1 : Type} `{!MessengerClient W1}
    {W2 : Type} `{!IggyClient W2} (decode : string → result string)
    (n b : Z) (fuel : nat) (w1 : W1) (w2 : W2) (c s off cnt : Z) :
  0 < b →
  last (Producer.produce_body b w1 c s).1 = Some (Sleep Producer.interval) ∧
  match (Consumer.consume_body decode b w2 off cnt).2 with
  | Consumer.Continue _ _ _ =>
      last (Consumer.consume_body decode b w2 off cnt).1 =
      Some (Sleep Consumer.interval)
  | Consumer.Break _ _ _ _ =>
      filter (λ e, is_sleep e = true)
        (Consumer.consume_body decode b w2 off cnt).1 = []
  end ∧
  paced Producer.interval false
    (Producer.p_trace (Producer.produce_loop n b fuel w1 c s)) = true ∧
  paced Consumer.interval false
    (Consumer.c_trace (Consumer.consume_loop decode n b fuel w2 off cnt)) = true.
Proof.
  intros Hb. split_and!.
  - rewrite (ProducerFacts.produce_body_spec b Hb w1 c s). cbn [fst].
    by destruct (send_messages _ _ _ _ w1) as [[[]|e] w'].
  - apply (ConsumerFacts.pass_sleeps decode b w2 off cnt).
    apply ConsumerFacts.consume_body_pass.
  - by apply ProducerFacts.produce_loop_paced.
  - apply ConsumerFacts.consume_loop_paced.
Qed.

Lemma pause_between_requests_witness :
  0 < 10 ∧
  paced Consumer.interval false
    (Consumer.c_trace
       (Consumer.consume_loop decode_ascii 5 10 4
          (Broker.provisioned ["message-1"] [false; false; true]) 0 0)) = true.
Proof.
  split; [lia|].
  eapply (pause_between_requests decode_ascii 5 10 4 Broker.empty
            (Broker.provisioned ["message-1"] [false; false; true]) 0 0 0 0).
  lia.
Defined.

(** C9 as written fails for the consumer: the pass whose poll raises issues
    its request, logs the exception and leaves the loop; no pause follows
    it. *)
Lemma consumer_stops_without_pause :
  let r := Consumer.consume_loop decode_ascii 5 10 3
             (Broker.provisioned [] [true]) 0 0 in
  polls (Consumer.c_trace r) = [Raise Broker.transport_error] ∧
  filter (λ e, is_sleep e = true) (Consumer.c_trace r) = [].
Proof. by vm_compute. Qed.

End LoopFacts.

(** ** The order of the requests *)

Module ProtocolFacts.

Lemma requests_app (t1 t2 : list event) :
  requests (t1 ++ t2) = requests t1 ++ requests t2.
Proof. apply omap_app. Qed.

Section Producer.
Context {W : Type} `{!MessengerClient W}.

(** The producer loop issues send calls to the sample partition only,
    whatever the limit and the batch size. *)
Lemma produce_loop_only_sends (n b : Z) (fuel : nat) : ∀ (w : W) (c s : Z),
  forallb is_sample_send
    (requests (Producer.p_trace (Producer.produce_loop n b fuel w c s))) = true.
Proof.
  induction fuel as [|fuel IH]; intros w c s; cbn [Producer.produce_loop];
    destruct (decide (s < n)); try reflexivity.
  unfold Producer.produce_body.
  destruct (Producer.build_batch (Z.to_nat b) c []) as [c' ms].
  destruct (Producer.floordiv c' b) as [id|zero]; [|reflexivity].
  destruct (send_messages _ _ _ ms w) as [[[]|e] w'];
    cbn [Producer.p_trace]; rewrite requests_app, forallb_app, IH; reflexivity.
Qed.

Lemma produce_messages_only_sends (n b : Z) (fuel : nat) (w : W) :
  forallb is_sample_send
    (requests (Producer.r_trace (Producer.produce_messages_with n b fuel w))) = true.
Proof.
  unfold Producer.produce_messages_with.
  pose proof (produce_loop_only_sends n b fuel w 0 0) as Hloop.
  destruct (Producer.p_status _); cbn [Producer.r_trace];
    rewrite ?(requests_app (Producer.p_trace _)), ?forallb_app;
    change (requests (Log INFO Producer.opening_line :: ?t)) with (requests t);
    rewrite ?requests_app, ?forallb_app, ?Hloop; reflexivity.
Qed.

(** [init_system] looks the stream up, creates it exactly when the lookup
    returned "absent", then does the same for the topic, whatever the stream
    step led to. *)
Lemma init_system_steps (w : W) (rest : list (request * result reply)) :
  forallb is_sample_send rest = true →
  stream_steps (requests (Producer.r_trace (Producer.init_system w)) ++ rest) = true.
Proof.
  intros Hrest.
  destruct (ProducerFacts.init_system_trace w) as (-> & _ & _).
  unfold Producer.ensure_stream, Producer.ensure_topic.
  destruct (get_stream Producer.STREAM_NAME w) as [[[sd|]|e1] w2];
    [|destruct (create_stream Producer.STREAM_NAME Producer.STREAM_ID w2)
        as [[[]|e2] w3]|];
    cbn [fst snd];
    (destruct (get_topic Producer.STREAM_NAME Producer.TOPIC_NAME _)
       as [[[td|]|e3] w4];
     [|destruct (create_topic Producer.STREAM_NAME 1 Producer.TOPIC_NAME 1 w4)
         as [[[]|e4] w5]|]);
    cbn [fst snd app requests omap list_omap stream_steps topic_steps];
    rewrite Hrest; reflexivity.
Qed.

(** X1.  In every run of the producer's [main], for every client, limit,
    batch size and budget, the requests follow one fixed order: [connect];
    [login_user]; the stream lookup, followed by [create_stream] exactly when
    the lookup returned "absent"; the topic lookup, followed by
    [create_topic] exactly when that lookup returned "absent"; then nothing
    but send calls to the sample stream, topic and partition.  When
    [connect] or [login_user] raises, that call is the last one. *)
Theorem main_follows_protocol (n b : Z) (fuel : nat) (w : W) :
  producer_protocol
    (requests (Producer.r_trace (Producer.main_with n b fuel w))) = true.
Proof.
  unfold Producer.main_with.
  destruct (connect w) as [[[]|e] w1]; [|reflexivity].
  destruct (login_user "messenger" "messenger" w1) as [[[]|e] w2]; [|reflexivity].
  cbn [Producer.r_trace]. rewrite !requests_app.
  change (producer_protocol ?l) with
    (stream_steps
       (requests (Producer.r_trace (Producer.init_system w2)) ++
        requests (Producer.r_trace
          (Producer.produce_messages_with n b fuel
             (Producer.r_world (Producer.init_system w2)))))).
  apply init_system_steps, produce_messages_only_sends.
Qed.

End Producer.

Section Consumer.
Context {W : Type} `{!IggyClient W}.
Variable decode : string → result string.

Lemma requests_pass (b : Z) (w : W) (off cnt : Z) t st :
  pass decode b w off cnt t st →
  ∃ o, requests t = [(Consumer.poll_request b, o)] ∧
       match st with
       | Consumer.Continue _ _ _ => raised o = false
       | Consumer.Break _ _ _ _ => True
       end.
Proof.
  destruct 1 as [?????|????|????? t ? _ _ Hh|????? t _ _ Hh];
    try (eexists; split; reflexivity).
  all: assert (requests t = []) as Hlogs
    by (apply (ConsumerFacts.handle_each_only_logs decode) in Hh;
        clear -Hh; induction t as [|[] t IH]; simpl in *; try done; auto).
  all: eexists; split;
    [rewrite (requests_app [_; _]), requests_app, Hlogs; reflexivity|done].
Qed.

Lemma consume_loop_only_polls (n b : Z) (fuel : nat) : ∀ (w : W) (off cnt : Z),
  only_polls b
    (requests (Consumer.c_trace (Consumer.consume_loop decode n b fuel w off cnt))).
Proof.
  induction fuel as [|fuel IH]; intros w off cnt; cbn [Consumer.consume_loop];
    destruct (decide (cnt < n)); try exact I.
  pose proof (ConsumerFacts.consume_body_pass decode b w off cnt) as Hp.
  destruct (Consumer.consume_body decode b w off cnt)
    as [t [w' off' cnt'|e w' off' cnt']];
    cbn [fst snd Consumer.c_trace] in *;
    apply requests_pass in Hp as (o & Ho & Hok).
  - rewrite requests_app, Ho. cbn [app only_polls].
    split_and!; [done|congruence|apply IH].
  - rewrite Ho. cbn [only_polls]. done.
Qed.

(** X2.  In every run of the consumer's [main] the first request is
    [connect]; when it raises nothing follows; otherwise every further
    request is the same poll (sample stream, topic and partition, strategy
    [Next], [count = b], [auto_commit = True]), and a poll that raised is the
    last request of the run. *)
Theorem consumer_main_follows_protocol (n b : Z) (fuel : nat) (w : W) :
  consumer_protocol b
    (requests (Consumer.r_trace (Consumer.main_with decode n b fuel w))).
Proof.
  unfold Consumer.main_with.
  destruct (iggy_connect w) as [[[]|e] w1]; [|reflexivity].
  cbn [Consumer.r_trace]. rewrite requests_app.
  cbn [app requests omap list_omap consumer_protocol].
  unfold Consumer.consume_messages_with.
  pose proof (consume_loop_only_polls n b fuel w1 0 0) as Hloop.
  destruct (Consumer.c_status _); cbn [Consumer.r_trace];
    change (requests (Log INFO Consumer.opening_line :: ?t)) with (requests t);
    rewrite ?requests_app; cbn [requests omap list_omap];
    rewrite ?app_nil_r; exact Hloop.
Qed.

End Consumer.
End ProtocolFacts.

(** ** The shape of the traces *)

Module TraceFacts.

Lemma batch_id_at (b : Z) (j : nat) :
  0 < b → (Z.of_nat j * b + b) `div` b = Z.of_nat j + 1.
Proof.
  intros Hb. replace (Z.of_nat j * b + b) with ((Z.of_nat j + 1) * b) by lia.
  apply Z.div_mul. lia.
Qed.

Section Producer.
Context {W : Type} `{!MessengerClient W}.

Lemma produce_loop_passes (n b : Z) (fuel : nat) :
  0 < b →
  ∀ (w : W) (j : nat) (s : Z),
  ∃ outs : list (result unit),
    Producer.p_trace (Producer.produce_loop n b fuel w (Z.of_nat j * b) s) =
    mjoin (imap (λ k o, pass_events b (expected_batch b (j + k))
                          (Z.of_nat (j + k) + 1) o) outs).
Proof.
  intros Hb. induction fuel as [|fuel IH]; intros w j s;
    destruct (decide (s < n)) as [Hs|Hs].
  - exists []. by rewrite (ProducerFacts.produce_loop_starved n b w _ s Hs).
  - exists []. by rewrite (ProducerFacts.produce_loop_stop n b 0 w) by lia.
  - destruct (ProducerFacts.produce_loop_step n b Hb fuel w (Z.of_nat j * b) s Hs)
      as (o & w' & _ & Htr & _).
    cbn zeta in Htr. rewrite Htr, (batch_id_at b j Hb).
    replace (Z.of_nat j * b + b) with (Z.of_nat (S j) * b) by lia.
    destruct (IH w' (S j) (if raised o then s else s + 1)) as [outs ->].
    exists (o :: outs). rewrite imap_cons. cbn [mjoin list_join].
    rewrite Nat.add_0_r. unfold expected_batch at 1. f_equal. f_equal.
    apply imap_ext. intros k o' _. cbn. by rewrite Nat.add_succ_r.
  - exists []. by rewrite (ProducerFacts.produce_loop_stop n b (S fuel) w) by lia.
Qed.

(** X3.  For a batch size [b >= 1] the trace of the producer loop is made of
    one block per pass and is fixed by the outcomes of the send calls: the
    block of pass [k] (from 0) is the line "Attempting to send batch of b
    messages. Batch ID: k+1", the send request carrying identifiers [k*b+1 ..
    (k+1)*b], then either the success line with the same batch id or the
    ERROR line and the logged exception, then the pause.  The batch id in
    the log therefore counts attempts, not batches sent. *)
Theorem producer_trace_by_outcomes (n b : Z) (fuel : nat) (w : W) :
  0 < b →
  ∃ outs : list (result unit),
    Producer.p_trace (Producer.produce_loop n b fuel w 0 0) =
    mjoin (imap (λ k o, pass_events b (expected_batch b k) (Z.of_nat k + 1) o)
             outs).
Proof.
  intros Hb. exact (produce_loop_passes n b fuel Hb w 0%nat 0).
Qed.

(** X4.  With a batch size of 0 and a positive limit, the first pass raises
    [ZeroDivisionError] while formatting the "Attempting to send" line, which
    sits outside the [try]: the exception leaves [produce_messages] before
    any send call, pause or closing line, and the client is untouched. *)
Theorem zero_batch_size_raises (n : Z) (fuel : nat) (w : W) :
  0 < n →
  Producer.produce_messages_with n 0 (S fuel) w =
  Producer.Run
    (Raised (Exn "ZeroDivisionError" "integer division or modulo by zero"))
    w [Log INFO Producer.opening_line].
Proof.
  intros Hn. unfold Producer.produce_messages_with.
  cbn [Producer.produce_loop]. destruct (decide (0 < n)); [|lia]. reflexivity.
Qed.

End Producer.

Lemma zero_batch_size_raises_witness :
  0 < 5 ∧
  Producer.r_status
    (Producer.produce_messages_with 5 0 3 (Broker.provisioned [] [])) =
  Raised (Exn "ZeroDivisionError" "integer division or modulo by zero").
Proof.
  split; [lia|].
  by rewrite (zero_batch_size_raises 5 2 (Broker.provisioned [] [])) by lia.
Defined.

Lemma producer_trace_by_outcomes_witness :
  0 < 2 ∧
  ∃ outs : list (result unit),
    Producer.p_trace (Producer.produce_loop 2 2 3
                        (Broker.provisioned [] [true]) 0 0) =
    mjoin (imap (λ k o, pass_events 2 (expected_batch 2 k) (Z.of_nat k + 1) o)
             outs).
Proof.
  split; [lia|].
  apply (producer_trace_by_outcomes 2 2 3 (Broker.provisioned [] [true])). lia.
Defined.

Section Consumer.
Context {W : Type} `{!IggyClient W}.
Variable decode : string → result string.

Lemma handle_each_stops (ms1 ms2 : list ReceiveMessage) (m : ReceiveMessage)
    (texts : list string) (e : exn) :
  Forall2 (λ m text, decode (payload m) = Return text) ms1 texts →
  decode (payload m) = Raise e →
  Consumer.handle_each decode (ms1 ++ m :: ms2) =
  (zip_with (λ m text, Log INFO (Consumer.handled_line m text)) ms1 texts,
   Some e).
Proof.
  intros Hok Hbad. induction Hok as [|m1 text ms1 texts Hm _ IH].
  - cbn [app Consumer.handle_each zip_with]. unfold Consumer.handle_message.
    by rewrite Hbad.
  - cbn [app Consumer.handle_each zip_with]. unfold Consumer.handle_message.
    by rewrite Hm, IH.
Qed.

(** X5.  When a polled sequence contains a payload that does not decode,
    the messages before it are handled, the exception is logged and the loop
    stops without a pause; the messages after it are never handled, while
    [offset] has already been advanced by the length of the whole sequence
    and [n_consumed_batches] is not incremented. *)
Theorem undecodable_payload_is_fatal (n b : Z) (fuel : nat) (w w' : W)
    (off cnt : Z) (ms1 ms2 : list ReceiveMessage) (m : ReceiveMessage)
    (texts : list string) (e : exn) :
  cnt < n →
  poll_messages Consumer.STREAM_NAME Consumer.TOPIC_NAME Consumer.PARTITION_ID
    Next b true w = (Return (ms1 ++ m :: ms2), w') →
  Forall2 (λ m text, decode (payload m) = Return text) ms1 texts →
  decode (payload m) = Raise e →
  Consumer.consume_loop decode n b (S fuel) w off cnt =
  Consumer.Consumed Finished (Some e) w'
    (off + Z.of_nat (length (ms1 ++ m :: ms2))) cnt
    ([Log DEBUG "Polling for messages...";
      Invoke (Consumer.poll_request b) (Return (Polled (ms1 ++ m :: ms2)))] ++
     zip_with (λ m text, Log INFO (Consumer.handled_line m text)) ms1 texts ++
     [LogException (Consumer.fatal_line e)]).
Proof.
  intros Hcnt Hpoll Hok Hbad.
  rewrite (ConsumerFacts.consume_loop_unfold decode n b fuel w off cnt Hcnt).
  unfold Consumer.consume_body. rewrite Hpoll.
  destruct (ms1 ++ m :: ms2) as [|m0 rest] eqn:Hms.
  { by destruct ms1. }
  rewrite <- Hms, (handle_each_stops ms1 ms2 m texts e Hok Hbad). reflexivity.
Qed.

End Consumer.

Lemma undecodable_payload_is_fatal_witness :
  let bad := String (Ascii.ascii_of_nat 255) "" in
  let w := Broker.provisioned ["message-1"; bad; "message-3"] [] in
  let r := Consumer.consume_loop decode_ascii 5 10 3 w 0 0 in
  (0 < 5 ∧ decode_ascii bad = Raise (Exn "UnicodeDecodeError" "invalid start byte")) ∧
  Consumer.c_offset r = 3 ∧ Consumer.n_consumed_batches r = 0.
Proof.
  split; [split; [lia|reflexivity]|].
  pose proof (undecodable_payload_is_fatal decode_ascii 5 10 2
    (Broker.provisioned ["message-1"; String (Ascii.ascii_of_nat 255) "";
                         "message-3"] [])
    (poll_messages Consumer.STREAM_NAME Consumer.TOPIC_NAME Consumer.PARTITION_ID
       Next 10 true
       (Broker.provisioned ["message-1"; String (Ascii.ascii_of_nat 255) "";
                            "message-3"] [])).2
    0 0
    [ {| offset := 0; payload := "message-1" |} ]
    [ {| offset := 2; payload := "message-3" |} ]
    {| offset := 1; payload := String (Ascii.ascii_of_nat 255) "" |}
    ["message-1"] (Exn "UnicodeDecodeError" "invalid start byte")) as Hrun.
  rewrite Hrun; [done|lia|by vm_compute|by repeat constructor|reflexivity].
Defined.

End TraceFacts.

(** ** Runs against the broker *)

Module BrokerRuns.

(** *** The calls of the two loops on a broker whose transport holds *)

Lemma send_ok (σ : Broker.t) (s t : string) (p : Z) (ms : list SendMessage)
    (log : list string) :
  Broker.faults σ = [] →
  Broker.logs σ !! (s, t, p) = Some log →
  send_messages s t p ms σ =
  (Return (),
   Broker.Make (Broker.streams σ) (Broker.topics σ)
     (<[(s, t, p) := log ++ (send_payload <$> ms)]> (Broker.logs σ))
     (Broker.cursors σ) []).
Proof.
  destruct σ as [st tp lg cu fl].
  cbn [Broker.faults Broker.logs Broker.cursors Broker.streams Broker.topics].
  intros -> Hlog.
  cbv [send_messages Broker.messenger_client Broker.send_messages
       Broker.over_transport Broker.faults Broker.logs Broker.cursors
       Broker.streams Broker.topics].
  by rewrite Hlog.
Qed.

Lemma send_missing (σ : Broker.t) (s t : string) (p : Z) (ms : list SendMessage) :
  Broker.faults σ = [] →
  Broker.logs σ !! (s, t, p) = None →
  send_messages s t p ms σ = (Raise Broker.not_found, σ).
Proof.
  destruct σ as [st tp lg cu fl].
  cbn [Broker.faults Broker.logs]. intros -> Hlog.
  cbv [send_messages Broker.messenger_client Broker.send_messages
       Broker.over_transport Broker.faults Broker.logs].
  by rewrite Hlog.
Qed.

Lemma poll_ok (σ : Broker.t) (s t : string) (p b : Z) (log : list string) :
  Broker.faults σ = [] →
  Broker.logs σ !! (s, t, p) = Some log →
  let c := default 0 (Broker.cursors σ !! (s, t, p)) in
  poll_messages s t p Next b true σ =
  (Return (slice log c b),
   if bool_decide (slice log c b ≠ [])
   then Broker.Make (Broker.streams σ) (Broker.topics σ) (Broker.logs σ)
          (<[(s, t, p) := c + Z.of_nat (length (slice log c b))]>
             (Broker.cursors σ)) []
   else σ).
Proof.
  destruct σ as [st tp lg cu fl].
  cbn [Broker.faults Broker.logs Broker.cursors Broker.streams Broker.topics].
  intros -> Hlog.
  cbv [poll_messages Broker.iggy_client Broker.poll_messages
       Broker.over_transport Broker.faults Broker.logs Broker.cursors
       Broker.streams Broker.topics Broker.start_of].
  rewrite Hlog. reflexivity.
Qed.

(** *** The producer *)

Lemma produce_loop_missing (n b : Z) (σ : Broker.t) (fuel : nat) :
  0 < b → 0 < n →
  Broker.faults σ = [] →
  Broker.logs σ !! sample_key = None →
  ∀ c,
  let r := Producer.produce_loop n b fuel σ c 0 in
  Producer.p_status r = OutOfFuel ∧ Producer.p_world r = σ ∧
  length (sends (Producer.p_trace r)) = fuel ∧
  Forall (λ call, call.2 = Raise Broker.not_found) (sends (Producer.p_trace r)).
Proof.
  intros Hb Hn Hfaults Hlog. induction fuel as [|fuel IH]; intros c; cbn zeta.
  - rewrite (ProducerFacts.produce_loop_starved n b σ c 0 Hn). by cbn.
  - destruct (ProducerFacts.produce_loop_step n b Hb fuel σ c 0 Hn)
      as (o & w' & Hsend & Htr & Hst & Hw & _).
    cbn zeta in Htr, Hst, Hw.
    change (Producer.STREAM_NAME, Producer.TOPIC_NAME, Producer.PARTITION_ID)
      with sample_key in Hlog.
    rewrite (send_missing σ _ _ _ _ Hfaults Hlog) in Hsend.
    injection Hsend as <- <-. cbn [raised] in *.
    destruct (IH (c + b)) as (Hst' & Hw' & Hlen & Hall).
    rewrite Htr, Hst, Hw, sends_app, ProducerFacts.sends_pass_events.
    split_and!; [done|done|by cbn; f_equal|].
    constructor; [reflexivity|done].
Qed.

(** X6.  On a broker that does not know the sample partition (provisioning
    did not happen or failed) every send call of the producer raises "not
    found", the broker is left as it was, and the loop never ends: whatever
    the budget, the run uses all of it, one send call per pass. *)
Theorem producer_without_partition (n b : Z) (σ : Broker.t) (fuel : nat) :
  0 < b → 0 < n →
  Broker.faults σ = [] →
  Broker.logs σ !! sample_key = None →
  let r := Producer.produce_messages_with n b fuel σ in
  Producer.r_status r = OutOfFuel ∧ Producer.r_world r = σ ∧
  length (sends (Producer.r_trace r)) = fuel ∧
  Forall (λ call, call.2 = Raise Broker.not_found) (sends (Producer.r_trace r)).
Proof.
  intros Hb Hn Hfaults Hlog. cbn zeta.
  rewrite ProducerFacts.produce_messages_with_sends.
  destruct (produce_loop_missing n b σ fuel Hb Hn Hfaults Hlog 0)
    as (Hst & Hw & Hlen & Hall).
  unfold Producer.produce_messages_with. rewrite Hst. by cbn.
Qed.

Lemma producer_without_partition_witness :
  (0 < 10 ∧ 0 < 5 ∧ Broker.faults Broker.empty = [] ∧
   Broker.logs Broker.empty !! sample_key = None) ∧
  Producer.r_status (Producer.produce_messages 7 Broker.empty) = OutOfFuel.
Proof.
  split; [by split_and!|].
  by apply (producer_without_partition 5 10 Broker.empty 7).
Defined.

Lemma produce_loop_appends (n b : Z) (fuel : nat) :
  0 < b →
  ∀ (σ : Broker.t) (c s : Z) (log : list string),
  Broker.faults σ = [] →
  Broker.logs σ !! sample_key = Some log →
  s ≤ n →
  (Z.to_nat (n - s) ≤ fuel)%nat →
  let r := Producer.produce_loop n b fuel σ c s in
  Producer.p_status r = Finished ∧
  Producer.n_sent_batches r = n ∧
  length (sends (Producer.p_trace r)) = Z.to_nat (n - s) ∧
  failures (sends (Producer.p_trace r)) = 0%nat ∧
  Broker.faults (Producer.p_world r) = [] ∧
  Broker.streams (Producer.p_world r) = Broker.streams σ ∧
  Broker.topics (Producer.p_world r) = Broker.topics σ ∧
  Broker.cursors (Producer.p_world r) = Broker.cursors σ ∧
  Broker.logs (Producer.p_world r) =
    <[sample_key :=
        log ++ (Producer.payload_of <$> seqZ (c + 1) ((n - s) * b))]>
      (Broker.logs σ).
Proof.
  intros Hb. induction fuel as [|fuel IH]; intros σ c s log Hfaults Hlog Hs Hfuel;
    cbn zeta; destruct (decide (s < n)) as [Hlt|Hge]; try lia.
  - rewrite (ProducerFacts.produce_loop_stop n b 0 σ c s) by lia.
    cbn [Producer.p_status Producer.p_world Producer.n_sent_batches
         Producer.p_trace].
    replace (n - s) with 0 by lia. rewrite Z.mul_0_l. cbn [seqZ].
    split_and!; try done; try lia.
    change (seqZ (c + 1) 0) with (@nil Z). rewrite fmap_nil, app_nil_r.
    by rewrite insert_id.
  - destruct (ProducerFacts.produce_loop_step n b Hb fuel σ c s Hlt)
      as (o & w' & Hsend & Htr & Hst & Hw & _ & Hn).
    cbn zeta in Htr, Hst, Hw, Hn.
    change (Producer.STREAM_NAME, Producer.TOPIC_NAME, Producer.PARTITION_ID)
      with sample_key in Hsend.
    rewrite (send_ok σ _ _ _ _ log Hfaults Hlog) in Hsend.
    injection Hsend as <- <-. cbn [raised] in *.
    change (Producer.STREAM_NAME, Producer.TOPIC_NAME, Producer.PARTITION_ID)
      with sample_key in *.
    destruct (IH (Broker.Make (Broker.streams σ) (Broker.topics σ)
                    (<[sample_key := log ++ (send_payload <$> batch_from b c)]>
                       (Broker.logs σ))
                    (Broker.cursors σ) [])
                (c + b) (s + 1) (log ++ (send_payload <$> batch_from b c)))
      as (Hst' & Hn' & Hlen & Hfail & Hf' & Hs' & Ht' & Hc' & Hl');
      [reflexivity|apply lookup_insert_eq|lia|lia|].
    rewrite Htr, Hst, Hw, Hn, sends_app, ProducerFacts.sends_pass_events.
    cbn [Broker.streams Broker.topics Broker.cursors Broker.logs] in Hs', Ht', Hc', Hl'.
    split_and!; try done.
    + cbn [app length]. rewrite Hlen. lia.
    + rewrite Hl', insert_insert_eq. f_equal.
      rewrite <- app_assoc. f_equal. unfold batch_from.
      rewrite <- list_fmap_compose, <- fmap_app. f_equal.
      replace ((n - s) * b) with (b + (n - (s + 1)) * b) by lia.
      rewrite seqZ_app by nia. do 2 f_equal. lia.
  - rewrite (ProducerFacts.produce_loop_stop n b (S fuel) σ c s) by lia.
    cbn [Producer.p_status Producer.p_world Producer.n_sent_batches
         Producer.p_trace].
    replace (n - s) with 0 by lia. rewrite Z.mul_0_l.
    split_and!; try done; try lia.
    change (seqZ (c + 1) 0) with (@nil Z). rewrite fmap_nil, app_nil_r.
    by rewrite insert_id.
Qed.

Lemma produce_messages_with_world {W : Type} `{!MessengerClient W}
    (n b : Z) (fuel : nat) (w : W) :
  Producer.r_world (Producer.produce_messages_with n b fuel w) =
  Producer.p_world (Producer.produce_loop n b fuel w 0 0).
Proof.
  unfold Producer.produce_messages_with.
  by destruct (Producer.p_status (Producer.produce_loop n b fuel w 0 0)).
Qed.

(** X7.  On a broker whose transport holds and that knows the sample
    partition, [produce_messages] with a batch size [b >= 1] and a limit
    [n >= 0] ends after exactly [n] send calls, none of which fails, and
    leaves the partition extended by "message-1" .. "message-(n*b)" in this
    order; streams, topics, cursors and the other partitions are untouched. *)
Theorem producer_appends_batches (n b : Z) (σ : Broker.t) (log : list string)
    (fuel : nat) :
  0 < b → 0 ≤ n →
  Broker.faults σ = [] →
  Broker.logs σ !! sample_key = Some log →
  (Z.to_nat n ≤ fuel)%nat →
  let r := Producer.produce_messages_with n b fuel σ in
  Producer.r_status r = Finished ∧
  length (sends (Producer.r_trace r)) = Z.to_nat n ∧
  failures (sends (Producer.r_trace r)) = 0%nat ∧
  Broker.logs (Producer.r_world r) =
    <[sample_key := log ++ (Producer.payload_of <$> seqZ 1 (n * b))]>
      (Broker.logs σ) ∧
  Broker.streams (Producer.r_world r) = Broker.streams σ ∧
  Broker.topics (Producer.r_world r) = Broker.topics σ ∧
  Broker.cursors (Producer.r_world r) = Broker.cursors σ ∧
  Broker.faults (Producer.r_world r) = [].
Proof.
  intros Hb Hn Hfaults Hlog Hfuel. cbn zeta.
  rewrite ProducerFacts.produce_messages_with_sends,
    ProducerFacts.produce_messages_with_status, produce_messages_with_world.
  destruct (produce_loop_appends n b fuel Hb σ 0 0 log Hfaults Hlog Hn)
    as (Hst & _ & Hlen & Hfail & Hf & Hs & Ht & Hc & Hl).
  { by rewrite Z.sub_0_r. }
  rewrite Z.sub_0_r in Hlen, Hl. by split_and!.
Qed.

Lemma producer_appends_batches_witness :
  let σ := Broker.provisioned ["earlier"] [] in
  (0 < 2 ∧ 0 ≤ 2 ∧ Broker.faults σ = [] ∧
   Broker.logs σ !! sample_key = Some ["earlier"] ∧ (Z.to_nat 2 ≤ 2)%nat) ∧
  Broker.logs (Producer.r_world (Producer.produce_messages_with 2 2 2 σ))
    !! sample_key =
  Some ["earlier"; "message-1"; "message-2"; "message-3"; "message-4"].
Proof.
  split; [split_and!; (lia || reflexivity)|].
  destruct (producer_appends_batches 2 2 (Broker.provisioned ["earlier"] [])
              ["earlier"] 2) as (_ & _ & _ & Hlogs & _);
    [lia|lia|reflexivity|reflexivity|lia|].
  rewrite Hlogs, lookup_insert_eq. reflexivity.
Defined.








(** *** The consumer *)

(** A pass whose poll returned a non-empty sequence of messages that decode
    to themselves. *)
Lemma consume_body_handled {W : Type} `{!IggyClient W}
    (decode : string → result string) (b : Z) (w w' : W) (off cnt : Z)
    (ms : list ReceiveMessage) :
  poll_messages Consumer.STREAM_NAME Consumer.TOPIC_NAME Consumer.PARTITION_ID
    Next b true w = (Return ms, w') →
  ms ≠ [] →
  Forall (λ m, decode (payload m) = Return (payload m)) ms →
  Consumer.consume_body decode b w off cnt =
  (handled_pass b ms,
   Consumer.Continue w' (off + Z.of_nat (length ms)) (cnt + 1)).
Proof.
  intros Hpoll Hne Hdecode. unfold Consumer.consume_body. rewrite Hpoll.
  assert (Consumer.handle_each decode ms =
          ((λ m, Log INFO (Consumer.handled_line m (payload m))) <$> ms, None))
    as Hh.
  { rewrite (LoopFacts.handle_each_in_order decode ms (payload <$> ms)).
    - by rewrite zip_with_fmap_r, zip_with_diag.
    - clear -Hdecode. induction Hdecode; constructor; done. }
  destruct ms as [|m ms]; [done|]. by rewrite Hh.
Qed.

Lemma slice_length (log : list string) (c b : Z) :
  0 ≤ c → 0 ≤ b → c + b ≤ Z.of_nat (length log) →
  Z.of_nat (length (slice log c b)) = b.
Proof.
  intros Hc Hb Hlen. unfold slice.
  rewrite length_imap, length_take, length_drop. lia.
Qed.

Lemma slice_payloads (log : list string) (c b : Z) (m : ReceiveMessage) :
  m ∈ slice log c b → payload m ∈ log.
Proof.
  unfold slice. intros Hm.
  apply list_elem_of_lookup in Hm as [i Hi].
  rewrite list_lookup_imap in Hi.
  destruct (take (Z.to_nat b) (drop (Z.to_nat c) log) !! i) as [bytes|] eqn:Hb;
    [|done].
  injection Hi as <-. cbn [payload].
  apply lookup_take_Some in Hb as [Hb _]. rewrite lookup_drop in Hb.
  by eapply list_elem_of_lookup_2.
Qed.

Lemma poll_drained (σ : Broker.t) (b : Z) (log : list string) :
  Broker.faults σ = [] →
  Broker.logs σ !! sample_key = Some log →
  Z.of_nat (length log) ≤ default 0 (Broker.cursors σ !! sample_key) →
  poll_messages Consumer.STREAM_NAME Consumer.TOPIC_NAME Consumer.PARTITION_ID
    Next b true σ = (Return [], σ).
Proof.
  intros Hfaults Hlog Hcur.
  rewrite (poll_ok σ Consumer.STREAM_NAME Consumer.TOPIC_NAME
             Consumer.PARTITION_ID b log Hfaults Hlog). cbn zeta.
  change (Consumer.STREAM_NAME, Consumer.TOPIC_NAME, Consumer.PARTITION_ID)
    with sample_key.
  assert (slice log (default 0 (Broker.cursors σ !! sample_key)) b = []) as ->.
  { unfold slice. rewrite drop_ge by lia. by rewrite take_nil. }
  reflexivity.
Qed.

Lemma consume_loop_drained (decode : string → result string) (n b : Z)
    (σ : Broker.t) (log : list string) (fuel : nat) :
  Broker.faults σ = [] →
  Broker.logs σ !! sample_key = Some log →
  Z.of_nat (length log) ≤ default 0 (Broker.cursors σ !! sample_key) →
  ∀ off cnt, cnt < n →
  Consumer.consume_loop decode n b fuel σ off cnt =
  Consumer.Consumed OutOfFuel None σ off cnt
    (mjoin (replicate fuel (quiet_pass b))).
Proof.
  intros Hfaults Hlog Hcur. induction fuel as [|fuel IH]; intros off cnt Hcnt.
  - by rewrite (ConsumerFacts.consume_loop_starved decode n b σ off cnt Hcnt).
  - rewrite (ConsumerFacts.consume_loop_unfold decode n b fuel σ off cnt Hcnt).
    unfold Consumer.consume_body.
    rewrite (poll_drained σ b log Hfaults Hlog Hcur), (IH off cnt Hcnt).
    reflexivity.
Qed.

(** X9.  On a broker whose transport holds, when the sample partition has
    been read to its end, every poll of the consumer returns the empty
    sequence: each pass logs "No messages found" and pauses, nothing is
    counted, the broker is left as it was, and with a positive limit the
    loop never ends by itself; whatever the budget, the run uses all of it. *)
Theorem consumer_on_drained_partition (decode : string → result string)
    (n b : Z) (σ : Broker.t) (log : list string) (fuel : nat) :
  0 < n →
  Broker.faults σ = [] →
  Broker.logs σ !! sample_key = Some log →
  Z.of_nat (length log) ≤ default 0 (Broker.cursors σ !! sample_key) →
  Consumer.consume_messages_with decode n b fuel σ =
  Consumer.Run OutOfFuel σ
    (Log INFO Consumer.opening_line :: mjoin (replicate fuel (quiet_pass b))).
Proof.
  intros Hn Hfaults Hlog Hcur. unfold Consumer.consume_messages_with.
  by rewrite (consume_loop_drained decode n b σ log fuel Hfaults Hlog Hcur 0 0 Hn).
Qed.

Lemma consumer_on_drained_partition_witness :
  let σ := Broker.provisioned [] [] in
  (0 < 5 ∧ Broker.faults σ = [] ∧ Broker.logs σ !! sample_key = Some [] ∧
   Z.of_nat (length (@nil string)) ≤ default 0 (Broker.cursors σ !! sample_key)) ∧
  Consumer.r_status (Consumer.consume_messages_with decode_ascii 5 10 4 σ) =
  OutOfFuel.
Proof.
  split; [split_and!; (lia || reflexivity || by vm_compute)|].
  by rewrite (consumer_on_drained_partition decode_ascii 5 10
                (Broker.provisioned [] []) [] 4)
    by (lia || reflexivity || by vm_compute).
Defined.

Lemma poll_slice (σ : Broker.t) (b c : Z) (log : list string) :
  Broker.faults σ = [] →
  Broker.logs σ !! sample_key = Some log →
  default 0 (Broker.cursors σ !! sample_key) = c →
  0 ≤ c → 0 < b → c + b ≤ Z.of_nat (length log) →
  poll_messages Consumer.STREAM_NAME Consumer.TOPIC_NAME Consumer.PARTITION_ID
    Next b true σ =
  (Return (slice log c b),
   Broker.Make (Broker.streams σ) (Broker.topics σ) (Broker.logs σ)
     (<[sample_key := c + b]> (Broker.cursors σ)) []).
Proof.
  intros Hfaults Hlog Hcur Hc Hb Hlen.
  rewrite (poll_ok σ Consumer.STREAM_NAME Consumer.TOPIC_NAME
             Consumer.PARTITION_ID b log Hfaults Hlog). cbn zeta.
  change (Consumer.STREAM_NAME, Consumer.TOPIC_NAME, Consumer.PARTITION_ID)
    with sample_key.
  rewrite Hcur.
  pose proof (slice_length log c b Hc ltac:(lia) Hlen) as Hsl.
  rewrite Hsl. rewrite bool_decide_eq_true_2; [done|].
  intros Hnil. rewrite Hnil in Hsl. cbn in Hsl. lia.
Qed.

Lemma passes_shift (g : Z → list event) (c b : Z) (m : nat) :
  (λ k, g (c + Z.of_nat k * b)) <$> seq 0 (S m) =
  g c :: ((λ k, g (c + b + Z.of_nat k * b)) <$> seq 0 m).
Proof.
  cbn [seq fmap list_fmap]. f_equal; [f_equal; lia|].
  rewrite <- fmap_S_seq, <- list_fmap_compose.
  apply list_fmap_ext. intros _ k _. cbn. f_equal. lia.
Qed.

Lemma consume_loop_reads (decode : string → result string) (n b : Z)
    (log : list string) (fuel : nat) :
  0 < b →
  Forall (λ bytes, decode bytes = Return bytes) log →
  ∀ (σ : Broker.t) (c off cnt : Z),
  Broker.faults σ = [] →
  Broker.logs σ !! sample_key = Some log →
  default 0 (Broker.cursors σ !! sample_key) = c →
  0 ≤ c → cnt ≤ n →
  c + (n - cnt) * b ≤ Z.of_nat (length log) →
  (Z.to_nat (n - cnt) ≤ fuel)%nat →
  let r := Consumer.consume_loop decode n b fuel σ off cnt in
  Consumer.c_status r = Finished ∧
  Consumer.c_fatal r = None ∧
  Consumer.n_consumed_batches r = n ∧
  Consumer.c_offset r = off + (n - cnt) * b ∧
  Consumer.c_trace r =
    mjoin ((λ k, handled_pass b (slice log (c + Z.of_nat k * b) b))
           <$> seq 0 (Z.to_nat (n - cnt))) ∧
  Broker.faults (Consumer.c_world r) = [] ∧
  Broker.logs (Consumer.c_world r) = Broker.logs σ ∧
  Broker.streams (Consumer.c_world r) = Broker.streams σ ∧
  Broker.topics (Consumer.c_world r) = Broker.topics σ ∧
  default 0 (Broker.cursors (Consumer.c_world r) !! sample_key) =
    c + (n - cnt) * b.
Proof.
  intros Hb Hdecode.
  induction fuel as [|fuel IH];
    intros σ c off cnt Hfaults Hlog Hcur Hc Hcnt Hlen Hfuel; cbn zeta;
    destruct (decide (cnt < n)) as [Hlt|Hge]; try lia.
  - rewrite (ConsumerFacts.consume_loop_stop decode n b 0 σ off cnt) by lia.
    replace (n - cnt) with 0 by lia.
    cbn [Consumer.c_status Consumer.c_fatal Consumer.c_world Consumer.c_offset
         Consumer.n_consumed_batches Consumer.c_trace].
    split_and!; try done; lia.
  - rewrite (ConsumerFacts.consume_loop_unfold decode n b fuel σ off cnt Hlt).
    assert (c + b ≤ Z.of_nat (length log)) as Hfit by nia.
    pose proof (poll_slice σ b c log Hfaults Hlog Hcur Hc Hb Hfit) as Hpoll.
    pose proof (slice_length log c b Hc ltac:(lia) Hfit) as Hsl.
    rewrite (consume_body_handled decode b σ _ off cnt _ Hpoll).
    2: { intros Hnil. rewrite Hnil in Hsl. cbn in Hsl. lia. }
    2: { apply Forall_forall. intros m Hm. apply slice_payloads in Hm.
         by eapply Forall_forall in Hdecode. }
    cbn zeta. rewrite Hsl.
    destruct (IH (Broker.Make (Broker.streams σ) (Broker.topics σ) (Broker.logs σ)
                    (<[sample_key := c + b]> (Broker.cursors σ)) [])
                (c + b) (off + b) (cnt + 1))
      as (Hst' & Hfa' & Hn' & Hoff' & Htr' & Hf' & Hl' & Hs' & Ht' & Hc');
      [reflexivity|exact Hlog|
       by cbn [Broker.cursors]; rewrite lookup_insert_eq|lia|lia|nia|lia|].
    cbn [Consumer.c_status Consumer.c_fatal Consumer.c_world Consumer.c_offset
         Consumer.n_consumed_batches Consumer.c_trace].
    cbn [Broker.streams Broker.topics Broker.logs] in Hl', Hs', Ht'.
    split_and!; try done; try lia.
    + rewrite Htr'.
      replace (Z.to_nat (n - cnt)) with (S (Z.to_nat (n - (cnt + 1)))) by lia.
      by rewrite (passes_shift (λ x, handled_pass b (slice log x b))).
  - rewrite (ConsumerFacts.consume_loop_stop decode n b (S fuel) σ off cnt) by lia.
    replace (n - cnt) with 0 by lia.
    cbn [Consumer.c_status Consumer.c_fatal Consumer.c_world Consumer.c_offset
         Consumer.n_consumed_batches Consumer.c_trace].
    split_and!; try done; lia.
Qed.

(** X10.  On a broker whose transport holds, when at least [n * b] entries
    of the sample partition lie beyond the cursor [c] and the entries decode
    to themselves, [consume_messages] with [count = b >= 1] and limit
    [n >= 0] ends after exactly [n] polls: poll [k] (from 0) returns the [b]
    entries at offsets [c + k*b ..], each of them is handled, in order, in
    the same pass, and the run leaves the partition as it was with the cursor
    at [c + n*b]. *)
Theorem consumer_reads_in_batches (decode : string → result string) (n b c : Z)
    (σ : Broker.t) (log : list string) (fuel : nat) :
  0 < b → 0 ≤ n → (Z.to_nat n ≤ fuel)%nat →
  Broker.faults σ = [] →
  Broker.logs σ !! sample_key = Some log →
  default 0 (Broker.cursors σ !! sample_key) = c →
  0 ≤ c → c + n * b ≤ Z.of_nat (length log) →
  Forall (λ bytes, decode bytes = Return bytes) log →
  let r := Consumer.consume_messages_with decode n b fuel σ in
  Consumer.r_status r = Finished ∧
  Consumer.r_trace r =
    Log INFO Consumer.opening_line ::
    mjoin ((λ k, handled_pass b (slice log (c + Z.of_nat k * b) b))
           <$> seq 0 (Z.to_nat n)) ++
    [Log INFO (Consumer.closing_line n)] ∧
  Broker.logs (Consumer.r_world r) = Broker.logs σ ∧
  default 0 (Broker.cursors (Consumer.r_world r) !! sample_key) = c + n * b.
Proof.
  intros Hb Hn Hfuel Hfaults Hlog Hcur Hc Hlen Hdecode. cbn zeta.
  destruct (consume_loop_reads decode n b log fuel Hb Hdecode σ c 0 0
              Hfaults Hlog Hcur Hc Hn)
    as (Hst & _ & Hcount & _ & Htr & _ & Hl & _ & _ & Hcur');
    rewrite ?Z.sub_0_r; try done.
  rewrite Z.sub_0_r in Htr, Hcur'.
  unfold Consumer.consume_messages_with. rewrite Hst.
  cbn [Consumer.r_status Consumer.r_trace Consumer.r_world].
  by rewrite Hcount, Htr.
Qed.

Lemma consumer_reads_in_batches_witness :
  let σ := Broker.provisioned ["a"; "b"; "c"; "d"; "e"] [] in
  (0 < 2 ∧ 0 ≤ 2 ∧ (Z.to_nat 2 ≤ 3)%nat ∧ Broker.faults σ = [] ∧
   0 + 2 * 2 ≤ Z.of_nat (length ["a"; "b"; "c"; "d"; "e"]) ∧
   Forall (λ bytes, decode_ascii bytes = Return bytes) ["a"; "b"; "c"; "d"; "e"]) ∧
  default 0 (Broker.cursors
               (Consumer.r_world (Consumer.consume_messages_with decode_ascii 2 2 3 σ))
             !! sample_key) = 0 + 2 * 2.
Proof.
  assert (Forall (λ bytes, decode_ascii bytes = Return bytes)
            ["a"; "b"; "c"; "d"; "e"]) as Hdecode by (repeat constructor).
  split; [split_and!; (lia || reflexivity || exact Hdecode || (cbn; lia))|].
  apply (consumer_reads_in_batches decode_ascii 2 2 0
           (Broker.provisioned ["a"; "b"; "c"; "d"; "e"] [])
           ["a"; "b"; "c"; "d"; "e"] 3);
    (lia || reflexivity || exact Hdecode || (cbn; lia)).
Defined.





(** *** The producer over a failing transport *)

Lemma send_fault (σ : Broker.t) (s t : string) (p : Z) (ms : list SendMessage)
    (plan : list bool) :
  Broker.faults σ = true :: plan →
  send_messages s t p ms σ =
  (Raise Broker.transport_error, Broker.with_faults plan σ).
Proof.
  destruct σ as [st tp lg cu fl]. cbn [Broker.faults]. by intros ->.
Qed.

Lemma send_through (σ : Broker.t) (s t : string) (p : Z) (ms : list SendMessage)
    (plan : list bool) (log : list string) :
  Broker.faults σ = false :: plan →
  Broker.logs σ !! (s, t, p) = Some log →
  send_messages s t p ms σ =
  (Return (),
   Broker.Make (Broker.streams σ) (Broker.topics σ)
     (<[(s, t, p) := log ++ (send_payload <$> ms)]> (Broker.logs σ))
     (Broker.cursors σ) plan).
Proof.
  destruct σ as [st tp lg cu fl].
  cbn [Broker.faults Broker.logs Broker.cursors Broker.streams Broker.topics].
  intros -> Hlog.
  cbv [send_messages Broker.messenger_client Broker.send_messages
       Broker.over_transport Broker.with_faults Broker.faults Broker.logs
       Broker.cursors Broker.streams Broker.topics].
  by rewrite Hlog.
Qed.

Lemma batch_payloads_seq (b : Z) (m : nat) : ∀ j : nat,
  0 < b →
  mjoin (batch_payloads b <$> seq j m) =
  (Producer.payload_of <$> seqZ (Z.of_nat j * b + 1) (Z.of_nat m * b)).
Proof.
  induction m as [|m IH]; intros j Hb; [by rewrite Z.mul_0_l|].
  change (seq j (S m)) with (j :: seq (S j) m). rewrite fmap_cons.
  change (mjoin (batch_payloads b j :: (batch_payloads b <$> seq (S j) m)))
    with (batch_payloads b j ++ mjoin (batch_payloads b <$> seq (S j) m)).
  rewrite (IH (S j) Hb).
  unfold batch_payloads, expected_batch, batch_from.
  rewrite <- list_fmap_compose, <- fmap_app. f_equal.
  replace (Z.of_nat (S m) * b) with (b + Z.of_nat m * b) by lia.
  rewrite seqZ_app by nia. do 2 f_equal. lia.
Qed.

Lemma produce_loop_over_faults (n b : Z) :
  0 < b →
  ∀ (plan : list bool) (fuel : nat) (σ : Broker.t) (j : nat) (s : Z)
    (log : list string),
  Broker.faults σ = plan →
  Broker.logs σ !! sample_key = Some log →
  s ≤ n →
  (length plan + Z.to_nat (n - s) ≤ fuel)%nat →
  let r := Producer.produce_loop n b fuel σ (Z.of_nat j * b) s in
  Producer.p_status r = Finished ∧
  Broker.logs (Producer.p_world r) =
    <[sample_key :=
        log ++ mjoin (batch_payloads b <$> delivered plan j (Z.to_nat (n - s)))]>
      (Broker.logs σ) ∧
  Broker.streams (Producer.p_world r) = Broker.streams σ ∧
  Broker.topics (Producer.p_world r) = Broker.topics σ ∧
  Broker.cursors (Producer.p_world r) = Broker.cursors σ.
Proof.
  intros Hb. induction plan as [|failed plan IH];
    intros fuel σ j s log Hfaults Hlog Hs Hfuel; cbn zeta.
  - destruct (produce_loop_appends n b fuel Hb σ (Z.of_nat j * b) s log
                Hfaults Hlog Hs) as (Hst & _ & _ & _ & _ & Hss & Htt & Hcc & Hll).
    { cbn in Hfuel. lia. }
    split_and!; try done.
    rewrite Hll. cbn [delivered]. rewrite (batch_payloads_seq b _ j Hb).
    by rewrite Z2Nat.id by lia.
  - destruct (decide (s < n)) as [Hlt|Hge].
    + destruct fuel as [|fuel]; [cbn in Hfuel; lia|].
      destruct (ProducerFacts.produce_loop_step n b Hb fuel σ (Z.of_nat j * b) s Hlt)
        as (o & w' & Hsend & _ & Hst & Hw & _).
      cbn zeta in Hst, Hw. rewrite Hst, Hw.
      replace (Z.of_nat j * b + b) with (Z.of_nat (S j) * b) by lia.
      destruct (Z.to_nat (n - s)) as [|need] eqn:Hneed; [lia|].
      destruct failed.
      * rewrite (send_fault σ _ _ _ _ plan Hfaults) in Hsend.
        injection Hsend as <- <-. cbn [raised].
        destruct (IH fuel (Broker.with_faults plan σ) (S j) s log)
          as (Hst' & Hl' & Hs' & Ht' & Hc');
          [reflexivity|exact Hlog|lia|cbn in Hfuel; lia|].
        rewrite Hneed in Hl'. by split_and!.
      * change (Producer.STREAM_NAME, Producer.TOPIC_NAME, Producer.PARTITION_ID)
          with sample_key in Hsend.
        rewrite (send_through σ _ _ _ _ plan log Hfaults Hlog) in Hsend.
        injection Hsend as <- <-. cbn [raised].
        change (Producer.STREAM_NAME, Producer.TOPIC_NAME, Producer.PARTITION_ID)
          with sample_key.
        destruct (IH fuel
                    (Broker.Make (Broker.streams σ) (Broker.topics σ)
                       (<[sample_key :=
                            log ++ (send_payload <$>
                                    batch_from b (Z.of_nat j * b))]>
                          (Broker.logs σ))
                       (Broker.cursors σ) plan)
                    (S j) (s + 1)
                    (log ++ (send_payload <$> batch_from b (Z.of_nat j * b))))
          as (Hst' & Hl' & Hs' & Ht' & Hc');
          [reflexivity|apply lookup_insert_eq|lia|cbn in Hfuel; lia|].
        replace (Z.to_nat (n - (s + 1))) with need in Hl' by lia.
        cbn [Broker.streams Broker.topics Broker.cursors Broker.logs]
          in Hl', Hs', Ht', Hc'.
        split_and!; try done.
        rewrite Hl', insert_insert_eq. cbn [delivered]. rewrite fmap_cons.
        by rewrite <- app_assoc.
    + rewrite (ProducerFacts.produce_loop_stop n b fuel σ _ s) by lia.
      replace (Z.to_nat (n - s)) with 0%nat by lia.
      cbn [Producer.p_status Producer.p_world delivered].
      split_and!; try done.
      cbn. rewrite app_nil_r. by rewrite insert_id.
Qed.

(** X12.  On a broker that knows the sample partition and whose transport
    fails as a plan says (one entry per call, [true] for a failure, no
    failure once the plan is used up), [produce_messages] with [b >= 1] ends
    once [n] batches got through, and the partition is extended by exactly
    the batches whose send call got through, in order: the identifiers of a
    failed batch are missing from the partition, those of the later batches
    are not shifted. *)
Theorem partition_holds_delivered_batches (n b : Z) (σ : Broker.t)
    (log : list string) (fuel : nat) :
  0 < b → 0 ≤ n →
  Broker.logs σ !! sample_key = Some log →
  (length (Broker.faults σ) + Z.to_nat n ≤ fuel)%nat →
  let r := Producer.produce_messages_with n b fuel σ in
  Producer.r_status r = Finished ∧
  Broker.logs (Producer.r_world r) =
    <[sample_key :=
        log ++ mjoin (batch_payloads b <$>
                      delivered (Broker.faults σ) 0 (Z.to_nat n))]>
      (Broker.logs σ) ∧
  Broker.streams (Producer.r_world r) = Broker.streams σ ∧
  Broker.topics (Producer.r_world r) = Broker.topics σ ∧
  Broker.cursors (Producer.r_world r) = Broker.cursors σ.
Proof.
  intros Hb Hn Hlog Hfuel. cbn zeta.
  rewrite ProducerFacts.produce_messages_with_status, produce_messages_with_world.
  destruct (produce_loop_over_faults n b Hb (Broker.faults σ) fuel σ 0%nat 0 log
              eq_refl Hlog Hn) as (Hst & Hl & Hs & Ht & Hc).
  { by rewrite Z.sub_0_r. }
  rewrite Z.sub_0_r in Hl. by split_and!.
Qed.

Lemma partition_holds_delivered_batches_witness :
  let σ := Broker.provisioned [] [false; true; false] in
  (0 < 2 ∧ 0 ≤ 2 ∧ Broker.logs σ !! sample_key = Some [] ∧
   (length (Broker.faults σ) + Z.to_nat 2 ≤ 5)%nat) ∧
  Broker.logs (Producer.r_world (Producer.produce_messages_with 2 2 5 σ))
    !! sample_key =
  Some ["message-1"; "message-2"; "message-5"; "message-6"].
Proof.
  split; [split_and!; (lia || reflexivity || (cbn; lia))|].
  destruct (partition_holds_delivered_batches 2 2
              (Broker.provisioned [] [false; true; false]) [] 5)
    as (_ & Hlogs & _); [lia|lia|reflexivity|cbn; lia|].
  rewrite Hlogs, lookup_insert_eq. reflexivity.
Defined.

End BrokerRuns.

(** ** The order of the messages of a batch *)

Module OrderFacts.






End OrderFacts.
